(** * tg_shop: the message router, the FAQ resolver and the lead flow of [bot.py]

    A shallow embedding of [src/bot.py].  Handlers are programs of a small
    state / output / exception monad over the two mutable resources of the
    module: the per-user session dictionary [LEAD_STATE] and the file
    [LEADS_CSV].  Python strings are byte strings holding UTF-8 text.

    What [bot.py] imports from outside the repository is taken as a
    parameter of the development: [str.lower], [str.strip], [re.search],
    [fuzz.token_set_ratio], [json.dumps], the OpenAI client and [open].
    Sending a reply always succeeds.  Opening [LEADS_CSV] for appending
    either succeeds or raises; when it raises, the file is left as it was
    and the exception leaves [save_lead] and the handler that called it.
    Rows written to the opened file reach it. *)

From Stdlib Require Import Ascii String ZArith QArith.
From stdpp Require Import base strings gmap list.

Open Scope string_scope.
Open Scope list_scope.
Open Scope stdpp_scope.
Open Scope Z_scope.

(** ** Python built-ins *)

(** Exceptions that the modelled operations raise. [OSError] is what [open]
    raises for a file that cannot be written; [ExternalError] stands for
    whatever the OpenAI client raises. *)
Inductive exn :=
  | IndexError
  | ValueError
  | AttributeError
  | re_error
  | OSError
  | ExternalError (msg : string).

Inductive result (A : Type) :=
  | Ok (x : A)
  | Raise (e : exn).
Arguments Ok {A} x.
Arguments Raise {A} e.

(** [l[i]]: negative indices count from the end; out of range raises. *)
Definition py_getitem {A} (l : list A) (i : Z) : result A :=
  let n := Z.of_nat (length l) in
  let j := if i <? 0 then n + i else i in
  if (j <? 0) || (n <=? j) then Raise IndexError
  else match l !! Z.to_nat j with
       | Some x => Ok x
       | None => Raise IndexError
       end.

(** [l.index(x)]: position of the first element equal to [x]. *)
Fixpoint py_index (l : list string) (x : string) : result Z :=
  match l with
  | [] => Raise ValueError
  | y :: l' =>
      if String.eqb y x then Ok 0
      else match py_index l' x with
           | Ok i => Ok (i + 1)
           | Raise e => Raise e
           end
  end.

(** [t.startswith(w)] *)
Fixpoint str_startswith (w t : string) : bool :=
  match w, t with
  | EmptyString, _ => true
  | String a w', String b t' => Ascii.eqb a b && str_startswith w' t'
  | String _ _, EmptyString => false
  end.

(** [w in t] on strings: substring containment. *)
Fixpoint str_in (w t : string) : bool :=
  str_startswith w t ||
  match t with
  | EmptyString => false
  | String _ t' => str_in w t'
  end.

(** [s.split(sep)] for a one-character separator: never the empty list. *)
Fixpoint str_split (sep : ascii) (s : string) : list string :=
  match s with
  | EmptyString => [EmptyString]
  | String c s' =>
      if Ascii.eqb c sep then EmptyString :: str_split sep s'
      else match str_split sep s' with
           | h :: t => String c h :: t
           | [] => [String c EmptyString]
           end
  end.

(** [x in (a, b, ...)] on a tuple of strings. *)
Definition str_in_tuple (x : string) (t : list string) : bool :=
  existsb (String.eqb x) t.

(** [sum(1 for w in l if cond(w))] *)
Fixpoint sum_1_for_if (cond : string → bool) (l : list string) : Z :=
  match l with
  | [] => 0
  | w :: l' => (if cond w then 1 else 0) + sum_1_for_if cond l'
  end.

Definition newline : string := String (ascii_of_nat 10) EmptyString.

(** ** The knowledge base [DATA] (faq.yaml) *)

Record faq_item := { q : string; a : string }.
Record lead_field := { name : string; label : string }.

Record data := {
  faq : list faq_item;
  leads_fields : list lead_field;
  company_contacts_phone : string;
  company_work_hours : string
}.

(** ** Mutable state: [LEAD_STATE] and the file [LEADS_CSV] *)

Record lead_session := { step : Z; answers : gmap string string }.

Inductive csv_cell :=
  | cell_str (s : string)
  | cell_int (n : Z).

(** [LEADS_CSV] is [None] while the file does not exist, else its rows. *)
Record world := {
  LEAD_STATE : gmap Z lead_session;
  LEADS_CSV : option (list (list csv_cell))
}.

(** ** What a handler sends out *)

Inductive keyboard :=
  | ReplyKeyboardMarkup (buttons : list (list string)) (resize_keyboard : bool).

Record chat_request := {
  req_model : string;
  req_system : string;
  req_user : string;
  req_temperature : Q;
  req_max_tokens : Z
}.

(** [resp.choices[i].message.content] is an optional string. *)
Record chat_completion := { choices : list (option string) }.

Inductive action :=
  | reply_text (text : string) (reply_markup : option keyboard)
  | chat_completions_create (req : chat_request)
  | logger_warning (e : exn).

(** The incoming [Update]: the message text when there is a message with a
    text, and the effective user. *)
Record update := {
  message_text : option string;
  effective_user_id : Z;
  effective_user_username : option string
}.

(** ** The handler monad: state, output, exceptions *)

Definition M (A : Type) : Type := world → world * list action * result A.

Definition ret {A} (x : A) : M A := λ w, (w, [], Ok x).

Definition bind {A B} (m : M A) (f : A → M B) : M B := λ w,
  match m w with
  | (w1, out1, Ok x) =>
      match f x w1 with
      | (w2, out2, r) => (w2, out1 ++ out2, r)
      end
  | (w1, out1, Raise e) => (w1, out1, Raise e)
  end.

Definition raise {A} (e : exn) : M A := λ w, (w, [], Raise e).

Definition lift {A} (r : result A) : M A := λ w, (w, [], r).

Definition emit (act : action) : M unit := λ w, (w, [act], Ok tt).

(** [try: m  except Exception as e: h e] *)
Definition try_except {A} (m : M A) (h : exn → M A) : M A := λ w,
  match m w with
  | (w1, out1, Raise e) =>
      match h e w1 with
      | (w2, out2, r) => (w2, out1 ++ out2, r)
      end
  | ok => ok
  end.

Definition get_LEAD_STATE : M (gmap Z lead_session) := λ w, (w, [], Ok (LEAD_STATE w)).

Definition modify_LEAD_STATE (f : gmap Z lead_session → gmap Z lead_session) : M unit :=
  λ w, ({| LEAD_STATE := f (LEAD_STATE w); LEADS_CSV := LEADS_CSV w |}, [], Ok tt).

Definition get_LEADS_CSV : M (option (list (list csv_cell))) := λ w, (w, [], Ok (LEADS_CSV w)).

Definition put_LEADS_CSV (rows : list (list csv_cell)) : M unit :=
  λ w, ({| LEAD_STATE := LEAD_STATE w; LEADS_CSV := Some rows |}, [], Ok tt).

Notation "'do' x <- m ; k" := (bind m (λ x, k))
  (at level 10, x name, m at level 100, k at level 200,
   format "'[v' 'do'  x  <-  m ; '/' k ']'").
Notation "'do_' m ; k" := (bind m (λ _, k))
  (at level 10, m at level 100, k at level 200,
   format "'[v' 'do_'  m ; '/' k ']'").

Ltac unfold_monad :=
  unfold bind, ret, raise, lift, emit, try_except, get_LEAD_STATE,
    modify_LEAD_STATE, get_LEADS_CSV, put_LEADS_CSV in *.

(** ** Outcomes of [re.search] *)

Inductive re_outcome :=
  | re_Match
  | re_None
  | re_raises.

(** ** Concrete library functions and knowledge bases for evaluation

    The theorems below hold for every behaviour of the library functions.
    To run the program on concrete inputs, the functions here agree with
    CPython on the inputs the examples use: ASCII and basic Cyrillic text,
    ASCII white space, patterns without regex metacharacters, and the
    pattern "(" (an unterminated group, which [re] refuses to compile). *)

Definition byte_between (lo hi : nat) (c : ascii) : bool :=
  (lo <=? nat_of_ascii c)%nat && (nat_of_ascii c <=? hi)%nat.

Definition byte_shift (d : Z) (c : ascii) : ascii :=
  ascii_of_nat (Z.to_nat (Z.of_nat (nat_of_ascii c) + d)).

(** [str.lower] on UTF-8 bytes: A-Z, and the two-byte Cyrillic capitals
    U+0400..U+042F (lead byte 0xD0); every other byte is kept. *)
Fixpoint demo_lower (s : string) : string :=
  match s with
  | EmptyString => EmptyString
  | String c s' =>
      if byte_between 65 90 c then String (byte_shift 32 c) (demo_lower s')
      else if byte_between 208 208 c then
        match s' with
        | String d s'' =>
            if byte_between 144 159 d then
              String c (String (byte_shift 32 d) (demo_lower s''))
            else if byte_between 160 175 d then
              String (byte_shift 1 c) (String (byte_shift (-32) d) (demo_lower s''))
            else if byte_between 128 143 d then
              String (byte_shift 1 c) (String (byte_shift 16 d) (demo_lower s''))
            else String c (String d (demo_lower s''))
        | EmptyString => String c EmptyString
        end
      else String c (demo_lower s')
  end.

Definition ascii_space (c : ascii) : bool :=
  byte_between 9 13 c || byte_between 32 32 c.

Fixpoint demo_lstrip (s : string) : string :=
  match s with
  | EmptyString => EmptyString
  | String c s' => if ascii_space c then demo_lstrip s' else s
  end.

Fixpoint demo_rstrip (s : string) : string :=
  match s with
  | EmptyString => EmptyString
  | String c s' =>
      match demo_rstrip s' with
      | EmptyString => if ascii_space c then EmptyString else String c EmptyString
      | r => String c r
      end
  end.

Definition demo_strip (s : string) : string := demo_rstrip (demo_lstrip s).

(** [re.search(p, t, re.IGNORECASE)] for a literal pattern, and for "(". *)
Definition demo_re_search (p t : string) : re_outcome :=
  if String.eqb p "(" then re_raises
  else if str_in (demo_lower p) (demo_lower t) then re_Match
  else re_None.

(** A scorer that gives 100 to two texts with the same set of
    space-separated tokens, as [fuzz.token_set_ratio] does, and 0 to the
    rest. *)
Definition demo_ratio (x y : string) : Q :=
  let tx := str_split " " x in
  let ty := str_split " " y in
  if forallb (λ t, existsb (String.eqb t) ty) tx
     && forallb (λ t, existsb (String.eqb t) tx) ty
  then inject_Z 100 else inject_Z 0.

(** The serialized knowledge base only travels inside the prompt. *)
Definition demo_json_dumps (d : data) : string := "{}".

(** A disk on which the file can always be opened for appending, and one
    mounted read-only. *)
Definition demo_open (utcnow : string) : result unit := Ok tt.
Definition read_only_disk (utcnow : string) : result unit := Raise OSError.

Definition demo_fields : list lead_field :=
  [ {| name := "full_name"; label := "Як вас звати?" |};
    {| name := "phone"; label := "Ваш телефон?" |} ].

Definition demo_data : data :=
  {| faq := [ {| q := "доставка|delivery"; a := "Доставка 1-2 дні" |};
              {| q := "яка вартість доставки"; a := "Від 50 грн" |} ];
     leads_fields := demo_fields;
     company_contacts_phone := "+380501234567";
     company_work_hours := "9:00-18:00" |}.

(** A knowledge base whose first FAQ pattern does not compile. *)
Definition malformed_data : data :=
  {| faq := [ {| q := "("; a := "ніколи" |};
              {| q := "доставка|delivery"; a := "Доставка 1-2 дні" |} ];
     leads_fields := demo_fields;
     company_contacts_phone := "+380501234567";
     company_work_hours := "9:00-18:00" |}.

(** A knowledge base whose only lead field is not a column of the file. *)
Definition email_data : data :=
  {| faq := [];
     leads_fields := [ {| name := "email"; label := "Ваш email?" |} ];
     company_contacts_phone := "+380501234567";
     company_work_hours := "9:00-18:00" |}.

(** A knowledge base without lead fields. *)
Definition no_fields_data : data :=
  {| faq := [];
     leads_fields := [];
     company_contacts_phone := "+380501234567";
     company_work_hours := "9:00-18:00" |}.

Definition olena (text : string) : update :=
  {| message_text := Some text; effective_user_id := 42;
     effective_user_username := Some "olena" |}.

(** A second user, without a user name. *)
Definition taras (text : string) : update :=
  {| message_text := Some text; effective_user_id := 7;
     effective_user_username := None |}.

(** ** The program *)

Section bot.

(** Library functions of the Python runtime and of the imported packages. *)
Variable str_lower : string → string.
Variable str_strip : string → string.
(** [re_search p t] is the outcome of [re.search(p, t, re.IGNORECASE)]:
    a match, [None], or [re.error] for a pattern that does not compile. *)
Variable re_search : string → string → re_outcome.
(** [fuzz.token_set_ratio], a score on the scale 0..100. *)
Variable token_set_ratio : string → string → Q.
(** [json.dumps(DATA, ensure_ascii=False, indent=2)] *)
Variable json_dumps : data → string.

(** Module-level configuration (config.py and the files read at import). *)
Variable BOT_LANG : string.
Variable OPENAI_MODEL : string.
Variable SYSTEM_PROMPT : string.
Variable DATA : data.
(** [openai_client] is [None] without an API key; a call returns a
    completion or raises. *)
Variable openai_client : option (chat_request → result chat_completion).
(** [open_append utcnow] is the outcome of [open(LEADS_CSV, "a", ...)] for
    the call of [save_lead] made at the instant [utcnow]: the file is opened,
    or an exception is raised ([OSError] on a read-only disk, say) and the
    file stays as it was. *)
Variable open_append : string → result unit.

Definition ru_markers : list string :=
  ["привет";"здравствуйте";"сколько";"цена";"доставка";"адрес";"меню";"оплата";"резерв"].
Definition uk_markers : list string :=
  ["привіт";"скільки";"ціна";"доставка";"адреса";"меню";"оплата";"бронювання";"режим"].

Definition detect_lang (text : string) : string :=
  let score_ru := sum_1_for_if (λ w, str_in w (str_lower text)) ru_markers in
  let score_uk := sum_1_for_if (λ w, str_in w (str_lower text)) uk_markers in
  if score_uk <? score_ru then "ru" else "uk".

Definition build_keyboard (lang : string) : keyboard :=
  let buttons :=
    if String.eqb lang "ru"
    then [["Меню"; "Доставка"]; ["Оставить заявку"]; ["Контакты"; "Часы работы"]]
    else [["Меню"; "Доставка"]; ["Залишити заявку"]; ["Контакти"; "Години роботи"]] in
  ReplyKeyboardMarkup buttons true.

(** The inner loop of [faq_answer]: [true] when some pattern matched. *)
Fixpoint search_patterns (patterns : list string) (user_text : string) : result bool :=
  match patterns with
  | [] => Ok false
  | p :: patterns' =>
      match re_search (str_strip p) user_text with
      | re_Match => Ok true
      | re_None => search_patterns patterns' user_text
      | re_raises => Raise re_error
      end
  end.

(** The outer loop of [faq_answer]: the answer it returns, if it returns. *)
Fixpoint search_items (items : list faq_item) (user_text : string)
    : result (option string) :=
  match items with
  | [] => Ok None
  | item :: items' =>
      match search_patterns (str_split "|" (q item)) user_text with
      | Ok true => Ok (Some (a item))
      | Ok false => search_items items' user_text
      | Raise e => Raise e
      end
  end.

(** The (stripped sub-pattern, entry) pairs in the order in which the two
    loops of [faq_answer] try them. *)
Definition scan_order (items : list faq_item) : list (string * faq_item) :=
  flat_map (λ item, map (λ p, (str_strip p, item)) (str_split "|" (q item))) items.

(** The two loops as one pass over [scan_order]. *)
Fixpoint search_flat (l : list (string * faq_item)) (user_text : string)
    : result (option string) :=
  match l with
  | [] => Ok None
  | (p, item) :: l' =>
      match re_search p user_text with
      | re_Match => Ok (Some (a item))
      | re_None => search_flat l' user_text
      | re_raises => Raise re_error
      end
  end.

(** [process.extractOne(query, choices, scorer=...)] with its default
    arguments: the first choice with the highest score, as
    [(choice, score, index)]; [None] on an empty list. *)
Fixpoint extractOne_from (scorer : string → string → Q) (query : string)
    (choices : list string) (i : Z) (best : option (string * Q * Z))
    : option (string * Q * Z) :=
  match choices with
  | [] => best
  | c :: choices' =>
      let s := scorer query c in
      let best' :=
        match best with
        | None => Some (c, s, i)
        | Some (_, bs, _) => if Qle_bool s bs then best else Some (c, s, i)
        end in
      extractOne_from scorer query choices' (i + 1) best'
  end.

Definition extractOne (scorer : string → string → Q) (query : string)
    (choices : list string) : option (string * Q * Z) :=
  extractOne_from scorer query choices 0 None.

Definition faq_answer (user_text : string) (threshold : Z) : result (option string) :=
  match search_items (faq DATA) user_text with
  | Raise e => Raise e
  | Ok (Some ans) => Ok (Some ans)
  | Ok None =>
      let qlist := map q (faq DATA) in
      match extractOne token_set_ratio user_text qlist with
      | Some (choice, score, _) =>
          if Qle_bool (inject_Z threshold) score then
            match py_index qlist choice with
            | Raise e => Raise e
            | Ok idx =>
                match py_getitem (faq DATA) idx with
                | Raise e => Raise e
                | Ok item => Ok (Some (a item))
                end
            end
          else Ok None
      | None => Ok None
      end
  end.

Definition fallback_ru : string :=
  "Я уточню у менеджера і вернусь с ответом. Могу оформить заявку на звонок? Напишите телефон.".
Definition fallback_uk : string :=
  "Уточню у менеджера і повернуся з відповіддю. Можу оформити заявку на дзвінок? Напишіть номер.".

(** The statements under [try:]; [Some reply] when they return a reply. *)
Definition openai_attempt (system user_text : string)
    (client : chat_request → result chat_completion) : M (option string) :=
  let req := {| req_model := OPENAI_MODEL; req_system := system;
                req_user := user_text; req_temperature := 4 # 10;
                req_max_tokens := 300 |} in
  do_ emit (chat_completions_create req);
  do resp <- lift (client req);
  do content <- lift (py_getitem (choices resp) 0);
  match content with
  | Some s => ret (Some (str_strip s))
  | None => raise AttributeError
  end.

Definition gen_ai_reply (user_text lang_hint : string) : M string :=
  let context_blob := json_dumps DATA in
  let user_lang := if String.eqb lang_hint "" then detect_lang user_text else lang_hint in
  let system := SYSTEM_PROMPT +:+ newline +:+ newline +:+ "YAML:" +:+ newline
                +:+ context_blob +:+ newline +:+ newline
                +:+ "Language to respond: " +:+ user_lang in
  do returned <-
    match openai_client with
    | Some client =>
        try_except (openai_attempt system user_text client)
                   (λ e, do_ emit (logger_warning e); ret None)
    | None => ret None
    end;
  match returned with
  | Some reply => ret reply
  | None => if String.eqb user_lang "ru" then ret fallback_ru else ret fallback_uk
  end.

Definition csv_header : list csv_cell :=
  [cell_str "timestamp"; cell_str "user_id"; cell_str "username";
   cell_str "full_name"; cell_str "phone"; cell_str "note"].

(** [answers.get(key, "")] *)
Definition dict_get (answers : gmap string string) (key : string) : string :=
  default "" (answers !! key).

(** [utcnow] is [datetime.datetime.utcnow().isoformat()] at the call.
    [file] is the file as [os.path.exists] finds it. *)
Definition save_lead (utcnow : string) (user_id : Z) (username : string)
    (answers : gmap string string) : M unit :=
  do file <- get_LEADS_CSV;
  do_ lift (open_append utcnow);
  let rows := match file with
              | None => [csv_header]
              | Some rows => rows
              end in
  put_LEADS_CSV (rows ++ [[cell_str utcnow; cell_int user_id; cell_str username;
                           cell_str (dict_get answers "full_name");
                           cell_str (dict_get answers "phone");
                           cell_str (dict_get answers "note")]]).

Definition start (upd : update) : M unit :=
  let lang := BOT_LANG in
  let text_ru := "Привет! Я AI‑помощник магазина Shop Cozy. Задайте вопрос или нажмите кнопки ниже." in
  let text_uk := "Привіт! Я AI‑помічник магазину Shop Cozy. Питайте що завгодно або тисніть кнопки нижче." in
  emit (reply_text (if String.eqb lang "ru" then text_ru else text_uk)
                   (Some (build_keyboard lang))).

Definition help_cmd (upd : update) : M unit :=
  let lang := BOT_LANG in
  let msg :=
    if String.eqb lang "uk"
    then "Команди:" +:+ newline +:+ "/start — старт" +:+ newline +:+ "/help — допомога"
         +:+ newline +:+ "/lead — залишити заявку" +:+ newline
    else "Команды:" +:+ newline +:+ "/start — старт" +:+ newline +:+ "/help — помощь"
         +:+ newline +:+ "/lead — оставить заявку" +:+ newline in
  emit (reply_text msg None).

Definition lead (upd : update) : M unit :=
  let user_id := effective_user_id upd in
  do_ modify_LEAD_STATE (insert user_id {| step := 0; answers := ∅ |});
  let fields := leads_fields DATA in
  do field <- lift (py_getitem fields 0);
  emit (reply_text (label field) None).

Definition done_msg (lang : string) : string :=
  if String.eqb lang "uk"
  then "Дякуємо! Заявку передано менеджеру. Ми на зв'язку 👌"
  else "Спасибо! Заявка передана менеджеру. Мы на связи 👌".

(** The branch of [text_router] under [if user_id in LEAD_STATE:].  The
    local [state] aliases the dictionary stored in [LEAD_STATE], so each
    assignment is written through to the store. *)
Definition lead_flow (utcnow : string) (user_id : Z) (username text lang : string)
    (state : lead_session) : M unit :=
  let fields := leads_fields DATA in
  let step0 := step state in
  do field <- lift (py_getitem fields step0);
  let key := name field in
  let answers1 := <[key:=text]> (answers state) in
  do_ modify_LEAD_STATE (insert user_id {| step := step0; answers := answers1 |});
  do_ modify_LEAD_STATE (insert user_id {| step := step0 + 1; answers := answers1 |});
  if Z.of_nat (length fields) <=? step0 + 1 then
    do_ save_lead utcnow user_id username answers1;
    do_ modify_LEAD_STATE (delete user_id);
    emit (reply_text (done_msg lang) None)
  else
    do next <- lift (py_getitem fields (step0 + 1));
    emit (reply_text (label next) None).

Definition text_router (utcnow : string) (upd : update) : M unit :=
  match message_text upd with
  | None => ret tt
  | Some raw =>
      if String.eqb raw "" then ret tt else
      let text := str_strip raw in
      let user_id := effective_user_id upd in
      let username := default "" (effective_user_username upd) in
      let lang := if negb (str_in_tuple BOT_LANG ["uk"; "ru"])
                  then detect_lang text else BOT_LANG in
      do sessions <- get_LEAD_STATE;
      match sessions !! user_id with
      | Some state => lead_flow utcnow user_id username text lang state
      | None =>
          let lower := str_lower text in
          if str_in_tuple lower ["залишити заявку"; "оставить заявку"] then
            lead upd
          else if str_in_tuple lower ["контакти"; "контакты"; "контакты"; "контакти"] then
            let phone := company_contacts_phone DATA in
            emit (reply_text ("Телефон: " +:+ phone) None)
          else if str_in_tuple lower ["години роботи"; "часы работы"] then
            emit (reply_text (company_work_hours DATA) None)
          else
            do ans <- lift (faq_answer text 78);
            match ans with
            | Some (String c s) => emit (reply_text (String c s) None)
            | _ =>
                do reply <- gen_ai_reply text lang;
                emit (reply_text reply (Some (build_keyboard lang)))
            end
      end
  end.

(** *** The dispatcher: one handler per incoming update *)

Inductive event :=
  | ev_start (upd : update)
  | ev_help (upd : update)
  | ev_lead (upd : update)
  | ev_text (utcnow : string) (upd : update).

Definition handle (ev : event) : M unit :=
  match ev with
  | ev_start upd => start upd
  | ev_help upd => help_cmd upd
  | ev_lead upd => lead upd
  | ev_text utcnow upd => text_router utcnow upd
  end.

(** The state a handler leaves behind, whether it returned or raised. *)
Definition world_after (ev : event) (w : world) : world := (handle ev w).1.1.

Definition run (evs : list event) (w : world) : world :=
  foldl (λ w ev, world_after ev w) w evs.

(** Results of the handlers of a run, in order. *)
Fixpoint run_results (evs : list event) (w : world) : list (result unit) :=
  match evs with
  | [] => []
  | ev :: evs' => (handle ev w).2 :: run_results evs' (world_after ev w)
  end.

Definition initial_world : world := {| LEAD_STATE := ∅; LEADS_CSV := None |}.

Definition reachable (w : world) : Prop := ∃ evs, w = run evs initial_world.

(** *** Vocabulary of the statements *)

(** The row [save_lead] writes. *)
Definition lead_row (utcnow : string) (user_id : Z) (username : string)
    (answers : gmap string string) : list csv_cell :=
  [cell_str utcnow; cell_int user_id; cell_str username;
   cell_str (dict_get answers "full_name");
   cell_str (dict_get answers "phone");
   cell_str (dict_get answers "note")].

(** The rows of the file once [save_lead] has written the header if the
    file was missing. *)
Definition rows_with_header (w : world) : list (list csv_cell) :=
  match LEADS_CSV w with
  | None => [csv_header]
  | Some rows => rows
  end.

(** The text kept under [key] when the pairs are assigned in order: the
    text of the last pair with that key. *)
Fixpoint last_answer (key : string) (pairs : list (string * string)) : option string :=
  match pairs with
  | [] => None
  | (k, t) :: pairs' =>
      match last_answer key pairs' with
      | Some t' => Some t'
      | None => if String.eqb k key then Some t else None
      end
  end.

(** [answers[k] = t] for each pair, in order. *)
Definition record_answers (answers0 : gmap string string)
    (pairs : list (string * string)) : gmap string string :=
  foldl (λ m p, <[p.1 := p.2]> m) answers0 pairs.

(** A text message of [user_id]: a message with a non-empty text. *)
Definition text_message_of (user_id : Z) (m : string * update) : Prop :=
  effective_user_id m.2 = user_id ∧
  ∃ raw, message_text m.2 = Some raw ∧ raw ≠ "".

(** The text [text_router] works with. *)
Definition stripped_text (m : string * update) : string :=
  str_strip (default "" (message_text m.2)).

(** Every stored session has its [step] within [0 .. len(fields)]. *)
Definition sessions_in_range (w : world) : Prop :=
  ∀ user_id state, LEAD_STATE w !! user_id = Some state →
    0 ≤ step state ≤ Z.of_nat (length (leads_fields DATA)).

(** The file, when it exists, is the header followed by six-column rows. *)
Definition csv_well_formed (w : world) : Prop :=
  ∀ rows, LEADS_CSV w = Some rows →
    ∃ leads, rows = csv_header :: leads ∧ Forall (λ row, length row = 6%nat) leads.

(** The state [lead] leaves: a fresh session for the user. *)
Definition with_fresh_session (user_id : Z) (w : world) : world :=
  {| LEAD_STATE := <[user_id := {| step := 0; answers := ∅ |}]> (LEAD_STATE w);
     LEADS_CSV := LEADS_CSV w |}.

(** The language [text_router] replies in (its local [lang]). *)
Definition router_lang (text : string) : string :=
  if negb (str_in_tuple BOT_LANG ["uk"; "ru"]) then detect_lang text else BOT_LANG.

(** The messages sent to the chat among the actions of a handler. *)
Definition is_reply (act : action) : bool :=
  match act with
  | reply_text _ _ => true
  | _ => false
  end.

Definition replies (out : list action) : list action := List.filter is_reply out.

(** The user an update comes from. *)
Definition event_user (ev : event) : Z :=
  match ev with
  | ev_start upd | ev_help upd | ev_lead upd | ev_text _ upd => effective_user_id upd
  end.

(** An update a handler answers: a command, or a message with a text. *)
Definition carries_text (ev : event) : bool :=
  match ev with
  | ev_text _ upd =>
      match message_text upd with
      | Some (String _ _) => true
      | _ => false
      end
  | _ => true
  end.

(** Markers that only one of the two lists of [detect_lang] has. *)
Definition ru_only_markers : list string :=
  ["привет";"здравствуйте";"сколько";"цена";"адрес";"резерв"].
Definition uk_only_markers : list string :=
  ["привіт";"скільки";"ціна";"адреса";"бронювання";"режим"].


(** ** Properties of the built-ins *)

Lemma str_startswith_spec w t :
  str_startswith w t = true ↔ ∃ post, t = w +:+ post.
Proof.
  revert t. induction w as [|c w IH]; intros t; simpl.
  - split; [intros _; by exists t | done].
  - destruct t as [|d t]; simpl.
    + split; [done | intros [post H]; discriminate].
    + rewrite andb_true_iff, IH. split.
      * intros [Hc [post ->]]. apply Ascii.eqb_eq in Hc as ->. by exists post.
      * intros [post H]. injection H as -> ->.
        split; [apply Ascii.eqb_refl | by exists post].
Qed.

Lemma str_in_spec w t :
  str_in w t = true ↔ ∃ pre post, t = pre +:+ w +:+ post.
Proof.
  induction t as [|d t IH]; simpl; rewrite orb_true_iff.
  - split.
    + intros [H|H]; [|done]. apply str_startswith_spec in H as [post H].
      by exists EmptyString, post.
    + intros [pre [post H]]. left. apply str_startswith_spec.
      destruct pre; [by exists post | discriminate].
  - split.
    + intros [H|H].
      * apply str_startswith_spec in H as [post H]. by exists EmptyString, post.
      * apply IH in H as [pre [post ->]]. by exists (String d pre), post.
    + intros [pre [post H]]. destruct pre as [|c pre]; simpl in H.
      * left. apply str_startswith_spec. by exists post.
      * right. apply IH. injection H as _ ->. by exists pre, post.
Qed.

Lemma sum_1_for_if_filter cond l :
  sum_1_for_if cond l = Z.of_nat (length (List.filter cond l)).
Proof.
  induction l as [|w l IH]; simpl; [done|].
  destruct (cond w); simpl; lia.
Qed.

Lemma py_getitem_nat {A} (l : list A) (i : nat) (x : A) :
  l !! i = Some x → py_getitem l (Z.of_nat i) = Ok x.
Proof.
  intros H. pose proof (lookup_lt_Some _ _ _ H) as Hlt.
  unfold py_getitem. cbv zeta.
  destruct (Z.ltb_spec (Z.of_nat i) 0) as [?|_]; [lia|].
  destruct (Z.ltb_spec (Z.of_nat i) 0) as [?|_]; [lia|].
  destruct (Z.leb_spec (Z.of_nat (length l)) (Z.of_nat i)) as [?|_]; [lia|].
  simpl. by rewrite Nat2Z.id, H.
Qed.


Lemma py_getitem_len {A} (l : list A) :
  py_getitem l (Z.of_nat (length l)) = Raise IndexError.
Proof.
  unfold py_getitem. cbv zeta.
  destruct (Z.ltb_spec (Z.of_nat (length l)) 0) as [?|_]; [lia|].
  destruct (Z.ltb_spec (Z.of_nat (length l)) 0) as [?|_]; [lia|].
  by destruct (Z.leb_spec (Z.of_nat (length l)) (Z.of_nat (length l))) as [_|?];
    [|lia].
Qed.

Lemma py_getitem_Ok_range {A} (l : list A) (i : Z) (x : A) :
  py_getitem l i = Ok x →
  - Z.of_nat (length l) ≤ i < Z.of_nat (length l) ∧ x ∈ l.
Proof.
  unfold py_getitem. cbv zeta.
  set (n := Z.of_nat (length l)).
  set (j := if i <? 0 then n + i else i). intros H.
  destruct ((j <? 0) || (n <=? j)) eqn:E; [done|].
  apply orb_false_iff in E as [E1 E2].
  apply Z.ltb_ge in E1. apply Z.leb_gt in E2.
  destruct (l !! Z.to_nat j) eqn:Hl; [|done]. injection H as ->. split.
  - subst j. destruct (Z.ltb_spec i 0); lia.
  - by eapply list_elem_of_lookup_2.
Qed.


Lemma py_index_first (l : list string) (k : nat) (x : string) :
  l !! k = Some x →
  (∀ j y, (j < k)%nat → l !! j = Some y → y ≠ x) →
  py_index l x = Ok (Z.of_nat k).
Proof.
  revert k. induction l as [|y l IH]; intros k Hk Hfirst; [done|].
  simpl. destruct k as [|k]; simpl in Hk.
  - injection Hk as ->. by rewrite String.eqb_refl.
  - destruct (String.eqb_spec y x) as [->|_].
    + by destruct (Hfirst 0%nat x); [lia| |].
    + rewrite (IH k Hk).
      * f_equal. lia.
      * intros j z Hj Hz. apply (Hfirst (S j) z); [lia | done].
Qed.

(** ** The language detector *)

(** C7: [detect_lang] counts, for each of the two tags, the marker words
    that occur as substrings of the lower-cased text (each marker counts
    once), answers "ru" exactly when the "ru" count is strictly higher and
    "uk" otherwise, so that ties and the empty text give "uk"; its result
    is one of the two tags.  It is a function of the text alone: it reads
    and writes no state. *)
Theorem detect_lang_spec (text : string) :
  let occurs := λ w, str_in w (str_lower text) in
  let count_ru := Z.of_nat (length (List.filter occurs ru_markers)) in
  let count_uk := Z.of_nat (length (List.filter occurs uk_markers)) in
  (detect_lang text = "ru" ∨ detect_lang text = "uk") ∧
  (detect_lang text = "ru" ↔ count_uk < count_ru) ∧
  (detect_lang text = "uk" ↔ count_ru ≤ count_uk) ∧
  (∀ w, occurs w = true ↔ ∃ pre post, str_lower text = pre +:+ w +:+ post) ∧
  (str_lower text = "" → detect_lang text = "uk").
Proof.
  intros occurs count_ru count_uk.
  assert (detect_lang text = if count_uk <? count_ru then "ru" else "uk") as Hd.
  { unfold detect_lang. by rewrite !sum_1_for_if_filter. }
  split_and!.
  - rewrite Hd. destruct (count_uk <? count_ru); auto.
  - rewrite Hd. destruct (Z.ltb_spec count_uk count_ru); split; (done || lia).
  - rewrite Hd. destruct (Z.ltb_spec count_uk count_ru); split; (done || lia).
  - intros w. apply str_in_spec.
  - intros Hlow. unfold detect_lang. by rewrite Hlow.
Qed.

(** ** The FAQ resolver *)

Lemma search_items_flat items u :
  search_items items u = search_flat (scan_order items) u.
Proof.
  induction items as [|item items IH]; [done|].
  unfold scan_order. simpl. fold (scan_order items).
  induction (str_split "|" (q item)) as [|p ps IHps]; simpl; [done|].
  destruct (re_search (str_strip p) u); [done| |done].
  rewrite <- IHps. by destruct (search_patterns ps u) as [[]|].
Qed.

Lemma search_flat_first pre p item post u :
  (∀ x, x ∈ pre → re_search x.1 u = re_None) →
  search_flat (pre ++ (p, item) :: post) u =
    match re_search p u with
    | re_Match => Ok (Some (a item))
    | re_None => search_flat post u
    | re_raises => Raise re_error
    end.
Proof.
  induction pre as [|[p' item'] pre IH]; intros Hpre; [done|].
  simpl. pose proof (Hpre (p', item') ltac:(by left)) as H0.
  simpl in H0. rewrite H0.
  apply IH. intros x Hx. apply Hpre. by right.
Qed.

Lemma search_flat_none l u :
  (∀ x, x ∈ l → re_search x.1 u = re_None) → search_flat l u = Ok None.
Proof.
  induction l as [|[p item] l IH]; intros Hl; [done|].
  simpl. pose proof (Hl (p, item) ltac:(by left)) as H0.
  simpl in H0. rewrite H0.
  apply IH. intros x Hx. apply Hl. by right.
Qed.

(** What the scan returns is decided by the first sub-pattern, in scan
    order, whose search is not [None]. *)
Lemma search_flat_inv l u :
  match search_flat l u with
  | Ok None => ∀ x, x ∈ l → re_search x.1 u = re_None
  | Ok (Some ans) =>
      ∃ pre p item post, l = pre ++ (p, item) :: post ∧ ans = a item ∧
        re_search p u = re_Match ∧ ∀ x, x ∈ pre → re_search x.1 u = re_None
  | Raise e =>
      e = re_error ∧
      ∃ pre p item post, l = pre ++ (p, item) :: post ∧
        re_search p u = re_raises ∧ ∀ x, x ∈ pre → re_search x.1 u = re_None
  end.
Proof.
  induction l as [|[p item] l IH]; simpl.
  - intros x Hx. by apply elem_of_nil in Hx.
  - destruct (re_search p u) eqn:Hp.
    + exists [], p, item, l. split_and!; try done.
      intros x Hx. by apply elem_of_nil in Hx.
    + destruct (search_flat l u) as [[ans|]|e].
      * destruct IH as (pre & p' & item' & post & -> & -> & Hm & Hpre).
        exists ((p, item) :: pre), p', item', post. split_and!; try done.
        intros x [->|Hx]%elem_of_cons; [done | by apply Hpre].
      * intros x [->|Hx]%elem_of_cons; [done | by apply IH].
      * destruct IH as (-> & pre & p' & item' & post & -> & Hm & Hpre).
        split; [done|].
        exists ((p, item) :: pre), p', item', post. split_and!; try done.
        intros x [->|Hx]%elem_of_cons; [done | by apply Hpre].
    + split; [done|]. exists [], p, item, l. split_and!; try done.
      intros x Hx. by apply elem_of_nil in Hx.
Qed.

Lemma elem_of_scan_order x items :
  x ∈ scan_order items ↔
  ∃ item p, item ∈ items ∧ p ∈ str_split "|" (q item) ∧ x = (str_strip p, item).
Proof.
  unfold scan_order. rewrite list_elem_of_In, in_flat_map. split.
  - intros [item [Hitem Hx]]. apply list_elem_of_In in Hitem, Hx.
    apply list_elem_of_fmap in Hx as [p [-> Hp]]. by exists item, p.
  - intros (item & p & Hitem & Hp & ->). exists item.
    rewrite <- !list_elem_of_In. split; [done|].
    apply list_elem_of_fmap. by exists p.
Qed.

Lemma scan_order_app l1 l2 :
  scan_order (l1 ++ l2) = scan_order l1 ++ scan_order l2.
Proof. unfold scan_order. apply flat_map_app. Qed.

Lemma Qle_bool_false_lt (x y : Q) : Qle_bool x y = false → (y < x)%Q.
Proof.
  intros H. apply Qnot_le_lt. intros Hle.
  apply Qle_bool_iff in Hle. congruence.
Qed.

(** [extractOne_from] keeps the first choice of highest score among the
    choices seen so far. *)
Lemma extractOne_from_best scorer u (seen choices : list string) best :
  match best with
  | None => seen = []
  | Some (c, s, k) =>
      ∃ n, k = Z.of_nat n ∧ seen !! n = Some c ∧ s = scorer u c ∧
        (∀ c', c' ∈ seen → (scorer u c' <= s)%Q) ∧
        (∀ j c', (j < n)%nat → seen !! j = Some c' → (scorer u c' < s)%Q)
  end →
  match extractOne_from scorer u choices (Z.of_nat (length seen)) best with
  | None => seen ++ choices = []
  | Some (c, s, k) =>
      ∃ n, k = Z.of_nat n ∧ (seen ++ choices) !! n = Some c ∧ s = scorer u c ∧
        (∀ c', c' ∈ seen ++ choices → (scorer u c' <= s)%Q) ∧
        (∀ j c', (j < n)%nat → (seen ++ choices) !! j = Some c' →
                 (scorer u c' < s)%Q)
  end.
Proof.
  revert seen best. induction choices as [|c cs IH]; intros seen best Hbest.
  - simpl. rewrite app_nil_r. by destruct best as [[[? ?] ?]|].
  - simpl. rewrite (cons_middle c seen cs), app_assoc.
    replace (Z.of_nat (length seen) + 1) with (Z.of_nat (length (seen ++ [c])))
      by (rewrite length_app; simpl; lia).
    apply IH. destruct best as [[[c0 bs] k]|].
    + destruct Hbest as (n & -> & Hn & -> & Hmax & Hfirst).
      pose proof (lookup_lt_Some _ _ _ Hn) as Hlt.
      destruct (Qle_bool (scorer u c) (scorer u c0)) eqn:Hle.
      * exists n. split_and!; try done.
        -- by rewrite lookup_app_l.
        -- intros c' [Hc'|Hc']%elem_of_app; [by apply Hmax|].
           apply list_elem_of_singleton in Hc' as ->. by apply Qle_bool_iff.
        -- intros j c' Hj Hc'. apply (Hfirst j c' Hj).
           rewrite lookup_app_l in Hc'; [done | lia].
      * apply Qle_bool_false_lt in Hle.
        exists (length seen). split_and!; try done.
        -- by rewrite list_lookup_middle.
        -- intros c' [Hc'|Hc']%elem_of_app.
           ++ apply Qlt_le_weak. eapply Qle_lt_trans; [by apply Hmax | done].
           ++ apply list_elem_of_singleton in Hc' as ->. apply Qle_refl.
        -- intros j c' Hj Hc'. rewrite lookup_app_l in Hc'; [|done].
           eapply Qle_lt_trans; [|exact Hle].
           apply Hmax. by eapply list_elem_of_lookup_2.
    + subst seen. exists 0%nat. split_and!; try done.
      * intros c' Hc'. apply list_elem_of_singleton in Hc' as ->. apply Qle_refl.
      * intros j c' Hj. lia.
Qed.

(** The fuzzy phase on its own: the first entry of highest score decides,
    and nothing raises. *)
Lemma faq_answer_after_scan u th :
  search_items (faq DATA) u = Ok None →
  match faq DATA with
  | [] => faq_answer u th = Ok None
  | _ :: _ =>
      ∃ n best, faq DATA !! n = Some best ∧
        (∀ item, item ∈ faq DATA →
                 (token_set_ratio u (q item) <= token_set_ratio u (q best))%Q) ∧
        (∀ j item, (j < n)%nat → faq DATA !! j = Some item →
                   (token_set_ratio u (q item) < token_set_ratio u (q best))%Q) ∧
        faq_answer u th =
          if Qle_bool (inject_Z th) (token_set_ratio u (q best))
          then Ok (Some (a best)) else Ok None
  end.
Proof.
  intros Hscan. unfold faq_answer. rewrite Hscan. unfold extractOne.
  pose proof (extractOne_from_best token_set_ratio u [] (map q (faq DATA)) None eq_refl)
    as Hbest.
  cbn [app length] in Hbest. change (Z.of_nat 0) with 0 in Hbest.
  revert Hbest.
  destruct (extractOne_from token_set_ratio u (map q (faq DATA)) 0 None)
    as [[[c s] k]|]; intros Hbest.
  - destruct Hbest as (n & -> & Hn & -> & Hmax & Hfirst).
    apply list_lookup_fmap_Some_1 in Hn as (best & -> & Hn).
    destruct (faq DATA) as [|item0 items] eqn:Hfaq; [done|].
    rewrite <- Hfaq in *. exists n, best. split_and!; try done.
    + intros item Hitem. apply Hmax. apply list_elem_of_fmap. by exists item.
    + intros j item Hj Hitem. apply (Hfirst j (q item) Hj).
      by rewrite list_lookup_fmap, Hitem.
    + destruct (Qle_bool (inject_Z th) (token_set_ratio u (q best))); [|done].
      rewrite (py_index_first (map q (faq DATA)) n (q best)).
      * by rewrite (py_getitem_nat _ _ _ Hn).
      * by rewrite list_lookup_fmap, Hn.
      * intros j y Hj Hy Heq. subst y.
        pose proof (Hfirst j (q best) Hj Hy) as Hlt.
        by apply Qlt_irrefl in Hlt.
  - apply fmap_nil_inv in Hbest. by rewrite Hbest.
Qed.

Lemma faq_answer_after_scan_Ok u th :
  search_items (faq DATA) u = Ok None → ∃ r, faq_answer u th = Ok r.
Proof.
  intros H. pose proof (faq_answer_after_scan u th H) as Hf.
  destruct (faq DATA); [by eexists|].
  destruct Hf as (n & best & _ & _ & _ & ->). case_match; by eexists.
Qed.

(** C3 (amended): where the ordered scan, entry by entry and sub-pattern by
    sub-pattern, finds a matching sub-pattern and every sub-pattern tried
    before it compiled and did not match, [faq_answer] returns the answer of
    that first entry; the rule phase returns it on its own, so the fuzzy
    phase is not consulted (the result holds for every scorer and
    threshold). *)
Theorem faq_answer_first_match before item after ps1 p ps2 u th :
  faq DATA = before ++ item :: after →
  str_split "|" (q item) = ps1 ++ p :: ps2 →
  (∀ item' p', item' ∈ before → p' ∈ str_split "|" (q item') →
               re_search (str_strip p') u = re_None) →
  (∀ p', p' ∈ ps1 → re_search (str_strip p') u = re_None) →
  re_search (str_strip p) u = re_Match →
  search_items (faq DATA) u = Ok (Some (a item)) ∧
  faq_answer u th = Ok (Some (a item)).
Proof.
  intros Hfaq Hsplit Hbefore Hps1 Hmatch.
  assert (search_items (faq DATA) u = Ok (Some (a item))) as Hscan.
  { assert (scan_order (faq DATA) =
              (scan_order before ++ map (λ p, (str_strip p, item)) ps1)
              ++ (str_strip p, item)
                 :: (map (λ p, (str_strip p, item)) ps2 ++ scan_order after))
      as Hl.
    { rewrite Hfaq, scan_order_app. unfold scan_order at 2. simpl.
      fold (scan_order after). rewrite Hsplit, map_app. simpl.
      by rewrite <- !app_assoc. }
    rewrite search_items_flat, Hl.
    rewrite search_flat_first; [by rewrite Hmatch|].
    intros x [Hx|Hx]%elem_of_app.
    - apply elem_of_scan_order in Hx as (item' & p' & Hi & Hp & ->).
      by apply (Hbefore item' p').
    - apply list_elem_of_fmap in Hx as (p' & -> & Hp). by apply Hps1. }
  split; [done|]. unfold faq_answer. by rewrite Hscan.
Qed.

(** C4 (amended): for an utterance for which every sub-pattern of every
    entry compiles and does not match, [faq_answer] scores the utterance
    against the question text of every entry with the token-set ratio and
    returns the answer of the first entry of highest score when that score
    is at least the threshold, and [None] when it is below (or when there
    is no entry at all). *)
Theorem faq_answer_fuzzy_phase u th :
  (∀ item p, item ∈ faq DATA → p ∈ str_split "|" (q item) →
             re_search (str_strip p) u = re_None) →
  match faq DATA with
  | [] => faq_answer u th = Ok None
  | _ :: _ =>
      ∃ n best, faq DATA !! n = Some best ∧
        (∀ item, item ∈ faq DATA →
                 (token_set_ratio u (q item) <= token_set_ratio u (q best))%Q) ∧
        (∀ j item, (j < n)%nat → faq DATA !! j = Some item →
                   (token_set_ratio u (q item) < token_set_ratio u (q best))%Q) ∧
        faq_answer u th =
          if Qle_bool (inject_Z th) (token_set_ratio u (q best))
          then Ok (Some (a best)) else Ok None
  end.
Proof.
  intros Hnone. apply faq_answer_after_scan.
  rewrite search_items_flat. apply search_flat_none.
  intros x Hx. apply elem_of_scan_order in Hx as (item & p & Hi & Hp & ->).
  by apply (Hnone item p).
Qed.

(** C5 (amended): [faq_answer] has no recovery for a sub-pattern that does
    not compile.  It raises [re.error] exactly when the ordered scan reaches
    such a sub-pattern before any matching one, that is, when every
    sub-pattern tried before it compiled and did not match; a malformed
    sub-pattern placed after the first match is never tried.  No other
    exception leaves [faq_answer]. *)
Theorem faq_answer_raises_iff u th :
  (faq_answer u th = Raise re_error ↔
   ∃ pre p item post,
     scan_order (faq DATA) = pre ++ (p, item) :: post ∧
     re_search p u = re_raises ∧
     ∀ x, x ∈ pre → re_search x.1 u = re_None) ∧
  (∀ e, faq_answer u th = Raise e → e = re_error).
Proof.
  pose proof (search_flat_inv (scan_order (faq DATA)) u) as Hinv.
  pose proof (faq_answer_after_scan_Ok u th) as Hfuzzy.
  rewrite <- search_items_flat in Hinv.
  assert (∀ e, faq_answer u th = Raise e →
               search_items (faq DATA) u = Raise e) as Hraise.
  { intros e He. destruct (search_items (faq DATA) u) as [[ans|]|e'] eqn:Hs.
    - unfold faq_answer in He. by rewrite Hs in He.
    - destruct (Hfuzzy eq_refl) as [r Hr]. congruence.
    - unfold faq_answer in He. by rewrite Hs in He. }
  split; [split|].
  - intros He. apply Hraise in He. rewrite He in Hinv. by destruct Hinv.
  - intros (pre & p & item & post & Hl & Hp & Hpre).
    unfold faq_answer.
    by rewrite search_items_flat, Hl, search_flat_first, Hp.
  - intros e He. apply Hraise in He. rewrite He in Hinv. by destruct Hinv.
Qed.

(** ** The AI fallback *)

Lemma fallback_nonempty lang :
  (if String.eqb lang "ru" then fallback_ru else fallback_uk) ≠ "".
Proof. by destruct (String.eqb lang "ru"). Qed.

(** [gen_ai_reply] returns, and leaves the state as it was. *)
Lemma gen_ai_reply_total user_text lang_hint w :
  ∃ out reply, gen_ai_reply user_text lang_hint w = (w, out, Ok reply).
Proof.
  unfold gen_ai_reply, openai_attempt. unfold_monad.
  set (user_lang := if String.eqb lang_hint "" then detect_lang user_text
                    else lang_hint).
  destruct openai_client as [client|]; simpl.
  - destruct (client _) as [resp|e]; simpl.
    + destruct (py_getitem (choices resp) 0) as [[content|]|e]; simpl;
        try destruct (String.eqb user_lang "ru"); by eexists _, _.
    + destruct (String.eqb user_lang "ru"); by eexists _, _.
  - destruct (String.eqb user_lang "ru"); by eexists _, _.
Qed.

(** C6: [gen_ai_reply] never raises and always returns a reply, for every
    utterance and language hint and every behaviour of the client.  Without
    a client, and whenever the call raises (any exception) or its response
    has no usable content, the reply is the canned sentence of the effective
    language (the hint, or the detected language when the hint is empty),
    and that sentence is not empty. *)
Theorem gen_ai_reply_never_raises user_text lang_hint w :
  let user_lang :=
    if String.eqb lang_hint "" then detect_lang user_text else lang_hint in
  let canned := if String.eqb user_lang "ru" then fallback_ru else fallback_uk in
  let system := SYSTEM_PROMPT +:+ newline +:+ newline +:+ "YAML:" +:+ newline
                +:+ json_dumps DATA +:+ newline +:+ newline
                +:+ "Language to respond: " +:+ user_lang in
  let req := {| req_model := OPENAI_MODEL; req_system := system;
                req_user := user_text; req_temperature := 4 # 10;
                req_max_tokens := 300 |} in
  canned ≠ "" ∧
  (canned = fallback_ru ∨ canned = fallback_uk) ∧
  ∃ out reply,
    gen_ai_reply user_text lang_hint w = (w, out, Ok reply) ∧
    match openai_client with
    | None => reply = canned ∧ out = []
    | Some client =>
        match client req with
        | Raise e =>
            reply = canned ∧ out = [chat_completions_create req; logger_warning e]
        | Ok resp =>
            match py_getitem (choices resp) 0 with
            | Ok (Some content) =>
                reply = str_strip content ∧ out = [chat_completions_create req]
            | Ok None =>
                reply = canned ∧
                out = [chat_completions_create req; logger_warning AttributeError]
            | Raise e =>
                reply = canned ∧ out = [chat_completions_create req; logger_warning e]
            end
        end
    end.
Proof.
  intros user_lang canned system req. split; [apply fallback_nonempty|].
  split; [subst canned; destruct (String.eqb user_lang "ru"); auto|].
  unfold gen_ai_reply, openai_attempt. unfold_monad.
  fold user_lang. fold system. fold req.
  destruct openai_client as [client|]; simpl.
  - destruct (client req) as [resp|e]; simpl.
    + destruct (py_getitem (choices resp) 0) as [[content|]|e]; simpl.
      * by eexists _, _.
      * subst canned. destruct (String.eqb user_lang "ru"); by eexists _, _.
      * subst canned. destruct (String.eqb user_lang "ru"); by eexists _, _.
    + subst canned. destruct (String.eqb user_lang "ru"); by eexists _, _.
  - subst canned. destruct (String.eqb user_lang "ru"); by eexists _, _.
Qed.

(** ** Persisting a lead *)

Lemma save_lead_eval utcnow user_id username answers w :
  save_lead utcnow user_id username answers w =
    match open_append utcnow with
    | Ok _ =>
        ({| LEAD_STATE := LEAD_STATE w;
            LEADS_CSV := Some (rows_with_header w
                               ++ [lead_row utcnow user_id username answers]) |},
         [], Ok tt)
    | Raise e => (w, [], Raise e)
    end.
Proof.
  unfold save_lead. unfold_monad. by destruct (open_append utcnow) as [[]|e].
Qed.

(** ** The handlers, evaluated *)

Lemma start_eval upd w : ∃ out, start upd w = (w, out, Ok tt).
Proof. by eexists. Qed.

Lemma help_cmd_eval upd w : ∃ out, help_cmd upd w = (w, out, Ok tt).
Proof. by eexists. Qed.

Lemma lead_eval upd w :
  lead upd w =
    match leads_fields DATA with
    | [] => (with_fresh_session (effective_user_id upd) w, [], Raise IndexError)
    | field :: _ =>
        (with_fresh_session (effective_user_id upd) w,
         [reply_text (label field) None], Ok tt)
    end.
Proof.
  unfold lead. unfold_monad.
  destruct (leads_fields DATA) as [|field fields] eqn:Hf; [done|].
  pose proof (py_getitem_nat (field :: fields) 0 field eq_refl) as Hget.
  change (Z.of_nat 0) with 0 in Hget. by rewrite Hget.
Qed.

Lemma lead_flow_eval utcnow user_id username text lang state w :
  lead_flow utcnow user_id username text lang state w =
    match py_getitem (leads_fields DATA) (step state) with
    | Raise e => (w, [], Raise e)
    | Ok field =>
        let answers1 := <[name field := text]> (answers state) in
        let w1 :=
          {| LEAD_STATE :=
               <[user_id := {| step := step state + 1; answers := answers1 |}]>
                 (LEAD_STATE w);
             LEADS_CSV := LEADS_CSV w |} in
        if Z.of_nat (length (leads_fields DATA)) <=? step state + 1 then
          match open_append utcnow with
          | Ok _ =>
              ({| LEAD_STATE := delete user_id (LEAD_STATE w);
                  LEADS_CSV := Some (rows_with_header w
                                     ++ [lead_row utcnow user_id username answers1]) |},
               [reply_text (done_msg lang) None], Ok tt)
          | Raise e => (w1, [], Raise e)
          end
        else
          match py_getitem (leads_fields DATA) (step state + 1) with
          | Ok next => (w1, [reply_text (label next) None], Ok tt)
          | Raise e => (w1, [], Raise e)
          end
    end.
Proof.
  unfold lead_flow, save_lead, rows_with_header, lead_row. unfold_monad.
  destruct (py_getitem (leads_fields DATA) (step state)) as [field|e]; [|done].
  simpl. rewrite !insert_insert_eq.
  destruct (Z.of_nat (length (leads_fields DATA)) <=? step state + 1).
  - destruct (open_append utcnow) as [[]|e]; simpl; [|done].
    by rewrite delete_insert_eq.
  - by destruct (py_getitem (leads_fields DATA) (step state + 1)).
Qed.

(** With a session for the sender, [text_router] is the lead flow. *)
Lemma text_router_active utcnow upd w raw state :
  message_text upd = Some raw → raw ≠ "" →
  LEAD_STATE w !! effective_user_id upd = Some state →
  text_router utcnow upd w =
    lead_flow utcnow (effective_user_id upd)
      (default "" (effective_user_username upd)) (str_strip raw)
      (if negb (str_in_tuple BOT_LANG ["uk"; "ru"])
       then detect_lang (str_strip raw) else BOT_LANG)
      state w.
Proof.
  intros Hmsg Hraw Hsess. unfold text_router. rewrite Hmsg.
  apply String.eqb_neq in Hraw. rewrite Hraw.
  unfold bind at 1. unfold get_LEAD_STATE. rewrite Hsess.
  by destruct (lead_flow _ _ _ _ _ _ _) as [[w2 out2] r].
Qed.

Lemma text_router_ignored utcnow upd w :
  message_text upd = None ∨ message_text upd = Some "" →
  text_router utcnow upd w = (w, [], Ok tt).
Proof. unfold text_router. by intros [->| ->]. Qed.

(** Without a session, the only change of state is a start of the flow. *)
Lemma text_router_inactive utcnow upd w raw :
  message_text upd = Some raw → raw ≠ "" →
  LEAD_STATE w !! effective_user_id upd = None →
  (str_in_tuple (str_lower (str_strip raw))
                ["залишити заявку"; "оставить заявку"] = true ∧
   text_router utcnow upd w = lead upd w) ∨
  (str_in_tuple (str_lower (str_strip raw))
                ["залишити заявку"; "оставить заявку"] = false ∧
   ∃ out r, text_router utcnow upd w = (w, out, r)).
Proof.
  intros Hmsg Hraw Hsess. apply String.eqb_neq in Hraw.
  destruct (str_in_tuple (str_lower (str_strip raw))
              ["залишити заявку"; "оставить заявку"]) eqn:Hquick;
    [left|right]; (split; [done|]);
    unfold text_router; rewrite Hmsg, Hraw;
    unfold bind at 1; unfold get_LEAD_STATE; rewrite Hsess; cbv zeta;
    rewrite Hquick.
  - by destruct (lead upd w) as [[w2 out2] r].
  - destruct (str_in_tuple _ ["контакти"; "контакты"; "контакты"; "контакти"]);
      [by eexists _, _|].
    destruct (str_in_tuple _ ["години роботи"; "часы работы"]);
      [by eexists _, _|].
    destruct (gen_ai_reply_total (str_strip raw)
                (if negb (str_in_tuple BOT_LANG ["uk"; "ru"])
                 then detect_lang (str_strip raw) else BOT_LANG) w)
      as (out & reply & Hgen).
    unfold_monad.
    destruct (faq_answer (str_strip raw) 78) as [[[|c ans]|]|e];
      cbv beta iota; try rewrite Hgen; by eexists _, _.
Qed.

(** ** The transitions of the state *)

(** A handler leaves the state as it was, starts a session, advances one,
    completes one (persisting the row and removing the session), or fails
    to persist the row of one it has advanced to the end. *)
Lemma handle_transition ev w :
  world_after ev w = w ∨
  (∃ user_id, world_after ev w = with_fresh_session user_id w) ∨
  (∃ user_id state field text,
      LEAD_STATE w !! user_id = Some state ∧
      py_getitem (leads_fields DATA) (step state) = Ok field ∧
      step state + 1 < Z.of_nat (length (leads_fields DATA)) ∧
      world_after ev w =
        {| LEAD_STATE :=
             <[user_id := {| step := step state + 1;
                             answers := <[name field := text]> (answers state) |}]>
               (LEAD_STATE w);
           LEADS_CSV := LEADS_CSV w |}) ∨
  (∃ user_id state field text utcnow username,
      LEAD_STATE w !! user_id = Some state ∧
      py_getitem (leads_fields DATA) (step state) = Ok field ∧
      Z.of_nat (length (leads_fields DATA)) ≤ step state + 1 ∧
      world_after ev w =
        {| LEAD_STATE := delete user_id (LEAD_STATE w);
           LEADS_CSV :=
             Some (rows_with_header w
                   ++ [lead_row utcnow user_id username
                         (<[name field := text]> (answers state))]) |}) ∨
  (∃ user_id state field text utcnow upd e,
      LEAD_STATE w !! user_id = Some state ∧
      py_getitem (leads_fields DATA) (step state) = Ok field ∧
      Z.of_nat (length (leads_fields DATA)) ≤ step state + 1 ∧
      ev = ev_text utcnow upd ∧ open_append utcnow = Raise e ∧
      world_after ev w =
        {| LEAD_STATE :=
             <[user_id := {| step := step state + 1;
                             answers := <[name field := text]> (answers state) |}]>
               (LEAD_STATE w);
           LEADS_CSV := LEADS_CSV w |}).
Proof.
  unfold world_after. destruct ev as [upd|upd|upd|utcnow upd]; simpl.
  - by left.
  - by left.
  - right; left. exists (effective_user_id upd). rewrite lead_eval.
    by destruct (leads_fields DATA).
  - destruct (message_text upd) as [raw|] eqn:Hmsg;
      [|left; by rewrite text_router_ignored; [|left]].
    destruct (String.eqb_spec raw "") as [->|Hraw];
      [left; by rewrite text_router_ignored; [|right]|].
    destruct (LEAD_STATE w !! effective_user_id upd) as [state|] eqn:Hsess.
    + rewrite (text_router_active utcnow upd w raw state Hmsg Hraw Hsess).
      rewrite lead_flow_eval.
      destruct (py_getitem (leads_fields DATA) (step state)) as [field|e] eqn:Hf;
        [|by left].
      cbv zeta.
      destruct (Z.leb_spec (Z.of_nat (length (leads_fields DATA))) (step state + 1)).
      * destruct (open_append utcnow) as [[]|e] eqn:Hopen.
        -- do 3 right; left. by eexists _, state, field, _, _, _.
        -- do 4 right. by eexists _, state, field, _, utcnow, upd, e.
      * right; right; left. exists (effective_user_id upd), state, field, (str_strip raw).
        by destruct (py_getitem (leads_fields DATA) (step state + 1)).
    + destruct (text_router_inactive utcnow upd w raw Hmsg Hraw Hsess)
        as [[_ ->]|[_ (out & r & ->)]]; [|by left].
      right; left. exists (effective_user_id upd). rewrite lead_eval.
      by destruct (leads_fields DATA).
Qed.

Lemma run_snoc evs ev w : run (evs ++ [ev]) w = world_after ev (run evs w).
Proof. unfold run. by rewrite foldl_app. Qed.

Lemma reachable_invariant (P : world → Prop) :
  P initial_world →
  (∀ ev w, P w → P (world_after ev w)) →
  ∀ w, reachable w → P w.
Proof.
  intros Hinit Hstep w [evs ->].
  induction evs as [|ev evs IH] using rev_ind; [done|].
  rewrite run_snoc. by apply Hstep.
Qed.

Lemma handle_sessions_in_range ev w :
  sessions_in_range w → sessions_in_range (world_after ev w).
Proof.
  intros Hw.
  destruct (handle_transition ev w)
    as [->|[(u & ->)|[(u & st & f & t & Hu & Hf & Hlt & ->)
                     |[(u & st & f & t & now & un & Hu & Hf & Hle & ->)
                      |(u & st & f & t & now & upd & e & Hu & Hf & Hle & Hev & Hopen
                        & ->)]]]];
    [done|..]; intros u' st'; simpl.
  - intros [[-> <-]|[_ H]]%lookup_insert_Some; [simpl; lia | by eapply Hw].
  - pose proof (Hw u st Hu).
    intros [[-> <-]|[_ H']]%lookup_insert_Some; [simpl; lia | by eapply Hw].
  - intros [_ H]%lookup_delete_Some. by eapply Hw.
  - pose proof (Hw u st Hu). apply py_getitem_Ok_range in Hf as [[_ Hhi] _].
    intros [[-> <-]|[_ H']]%lookup_insert_Some; [simpl; lia | by eapply Hw].
Qed.

(** With at least one field, a handler whose write does not raise leaves no
    session at [len(fields)]. *)
Lemma handle_sessions_below ev w :
  leads_fields DATA ≠ [] →
  (∀ utcnow upd, ev = ev_text utcnow upd → open_append utcnow = Ok tt) →
  (∀ user_id state, LEAD_STATE w !! user_id = Some state →
     0 ≤ step state < Z.of_nat (length (leads_fields DATA))) →
  ∀ user_id state, LEAD_STATE (world_after ev w) !! user_id = Some state →
    0 ≤ step state < Z.of_nat (length (leads_fields DATA)).
Proof.
  intros Hfields Hwrite Hw.
  assert (0 < Z.of_nat (length (leads_fields DATA))) as Hpos.
  { destruct (leads_fields DATA); [done | simpl; lia]. }
  destruct (handle_transition ev w)
    as [->|[(u & ->)|[(u & st & f & t & Hu & Hf & Hlt & ->)
                     |[(u & st & f & t & now & un & Hu & Hf & Hle & ->)
                      |(u & st & f & t & now & upd & e & Hu & Hf & Hle & Hev & Hopen
                        & ->)]]]];
    [done|..]; intros u' st'; simpl.
  - intros [[-> <-]|[_ H]]%lookup_insert_Some; [simpl; lia | by eapply Hw].
  - pose proof (Hw u st Hu).
    intros [[-> <-]|[_ H']]%lookup_insert_Some; [simpl; lia | by eapply Hw].
  - intros [_ H]%lookup_delete_Some. by eapply Hw.
  - rewrite (Hwrite now upd Hev) in Hopen. discriminate.
Qed.

Lemma handle_csv_well_formed ev w :
  csv_well_formed w → csv_well_formed (world_after ev w).
Proof.
  intros Hw.
  destruct (handle_transition ev w)
    as [->|[(u & ->)|[(u & st & f & t & Hu & Hf & Hlt & ->)
                     |[(u & st & f & t & now & un & Hu & Hf & Hle & ->)
                      |(u & st & f & t & now & upd & e & Hu & Hf & Hle & Hev & Hopen
                        & ->)]]]];
    [done|done|done| |done].
  intros rows [= <-]. unfold rows_with_header.
  destruct (LEADS_CSV w) as [old|] eqn:Hold.
  - destruct (Hw old Hold) as (leads & -> & Hleads).
    exists (leads ++ [lead_row now u un (<[name f := t]> (answers st))]).
    split; [done|]. apply Forall_app. split; [done|]. by constructor.
  - exists [lead_row now u un (<[name f := t]> (answers st))].
    split; [done|]. by constructor.
Qed.

Lemma lead_row_other_key utcnow user_id username answers key value :
  key ∉ ["full_name"; "phone"; "note"] →
  lead_row utcnow user_id username (<[key := value]> answers) =
  lead_row utcnow user_id username answers.
Proof.
  intros Hkey. unfold lead_row, dict_get.
  rewrite !lookup_insert_ne; [done|..]; intros ->; apply Hkey; set_solver.
Qed.

(** ** The persisted row *)

(** C9: [save_lead] appends one row of exactly six cells, under the header
    timestamp, user_id, username, full_name, phone, note (written first
    when the file was missing): the time, the user id, the user name, and
    the answers recorded under "full_name", "phone" and "note", a missing
    answer written as the empty string.  (When the file cannot be written,
    [save_lead] raises and the file stays as it was.)  An answer recorded
    under any other name does not change the row.  Hence every file the
    program produces is the header followed by six-column rows. *)
Theorem save_lead_six_columns utcnow user_id username answers w :
  let row := [cell_str utcnow; cell_int user_id; cell_str username;
              cell_str (default "" (answers !! "full_name"));
              cell_str (default "" (answers !! "phone"));
              cell_str (default "" (answers !! "note"))] in
  save_lead utcnow user_id username answers w =
    match open_append utcnow with
    | Ok _ =>
        ({| LEAD_STATE := LEAD_STATE w;
            LEADS_CSV := Some (match LEADS_CSV w with
                               | None => [csv_header]
                               | Some rows => rows
                               end ++ [row]) |}, [], Ok tt)
    | Raise e => (w, [], Raise e)
    end ∧
  length row = 6%nat ∧
  csv_header = cell_str <$> ["timestamp"; "user_id"; "username";
                             "full_name"; "phone"; "note"] ∧
  (∀ key value, key ∉ ["full_name"; "phone"; "note"] →
     save_lead utcnow user_id username (<[key := value]> answers) w =
     save_lead utcnow user_id username answers w) ∧
  (∀ w', reachable w' → csv_well_formed w').
Proof.
  intros row. split_and!; try done.
  - apply save_lead_eval.
  - intros key value Hkey. rewrite !save_lead_eval.
    by rewrite lead_row_other_key.
  - apply reachable_invariant; [done|]. apply handle_csv_well_formed.
Qed.

(** ** Starting the flow *)

(** C10: [lead] stores the fresh session and then prompts field 0.  With an
    empty field list that prompt raises [IndexError] in place of a reply;
    with a first field its label is the reply.  The start-lead quick reply
    of [text_router] is the same operation. *)
Theorem lead_requires_fields upd w :
  (leads_fields DATA = [] →
     lead upd w = (with_fresh_session (effective_user_id upd) w, [], Raise IndexError)) ∧
  (∀ field fields, leads_fields DATA = field :: fields →
     lead upd w = (with_fresh_session (effective_user_id upd) w,
                   [reply_text (label field) None], Ok tt)) ∧
  (∀ utcnow raw,
     message_text upd = Some raw → raw ≠ "" →
     LEAD_STATE w !! effective_user_id upd = None →
     str_in_tuple (str_lower (str_strip raw))
                  ["залишити заявку"; "оставить заявку"] = true →
     text_router utcnow upd w = lead upd w).
Proof.
  split_and!.
  - intros Hf. by rewrite lead_eval, Hf.
  - intros field fields Hf. by rewrite lead_eval, Hf.
  - intros utcnow raw Hmsg Hraw Hsess Hquick.
    destruct (text_router_inactive utcnow upd w raw Hmsg Hraw Hsess)
      as [[_ ->]|[Hq _]]; [done | congruence].
Qed.

(** ** The lead flow *)


(** C8 (amended): between any two handler runs, every stored session has
    [0 <= step <= len(fields)].  The handler run in which a text moves
    [step] up to [len(fields)] persists the row and then removes the
    session before it returns, provided the write returns.  When the write
    raises, the exception leaves the handler after the increment and before
    the removal: nothing is written and the session stays stored with
    [step = len(fields)].  A [step] that stays below [len(fields)] leaves
    the session stored with the new [step].  A session stored with
    [step = len(fields)] is not removed by later texts: each text of its
    user raises [IndexError] and changes nothing.  When there is at least
    one field and the file can be written at every text of a run, the run
    leaves no session with [step = len(fields)]. *)
Theorem session_step_invariant :
  (∀ w, reachable w → sessions_in_range w) ∧
  (∀ utcnow upd w raw state field,
     message_text upd = Some raw → raw ≠ "" →
     LEAD_STATE w !! effective_user_id upd = Some state →
     py_getitem (leads_fields DATA) (step state) = Ok field →
     let w' := world_after (ev_text utcnow upd) w in
     let answers1 := <[name field := str_strip raw]> (answers state) in
     if Z.of_nat (length (leads_fields DATA)) <=? step state + 1 then
       match open_append utcnow with
       | Ok _ =>
           (handle (ev_text utcnow upd) w).2 = Ok tt ∧
           LEAD_STATE w' !! effective_user_id upd = None ∧
           LEAD_STATE w' = delete (effective_user_id upd) (LEAD_STATE w) ∧
           LEADS_CSV w' =
             Some (rows_with_header w
                   ++ [lead_row utcnow (effective_user_id upd)
                         (default "" (effective_user_username upd)) answers1])
       | Raise e =>
           (handle (ev_text utcnow upd) w).2 = Raise e ∧
           step state + 1 = Z.of_nat (length (leads_fields DATA)) ∧
           LEAD_STATE w' !! effective_user_id upd =
             Some {| step := step state + 1; answers := answers1 |} ∧
           LEADS_CSV w' = LEADS_CSV w
       end
     else
       LEAD_STATE w' !! effective_user_id upd =
         Some {| step := step state + 1; answers := answers1 |} ∧
       LEADS_CSV w' = LEADS_CSV w) ∧
  (∀ utcnow upd w raw state,
     message_text upd = Some raw → raw ≠ "" →
     LEAD_STATE w !! effective_user_id upd = Some state →
     step state = Z.of_nat (length (leads_fields DATA)) →
     handle (ev_text utcnow upd) w = (w, [], Raise IndexError)) ∧
  (leads_fields DATA ≠ [] →
   ∀ evs,
     (∀ utcnow upd, ev_text utcnow upd ∈ evs → open_append utcnow = Ok tt) →
     ∀ user_id state, LEAD_STATE (run evs initial_world) !! user_id = Some state →
       0 ≤ step state < Z.of_nat (length (leads_fields DATA))).
Proof.
  split_and!.
  - apply reachable_invariant; [|apply handle_sessions_in_range].
    intros user_id state Hs. simpl in Hs. by rewrite lookup_empty in Hs.
  - intros utcnow upd w raw state field Hmsg Hraw Hsess Hfield w' answers1.
    subst w'. unfold world_after. simpl.
    rewrite (text_router_active utcnow upd w raw state Hmsg Hraw Hsess).
    rewrite lead_flow_eval, Hfield. cbv zeta.
    destruct (Z.leb_spec (Z.of_nat (length (leads_fields DATA))) (step state + 1))
      as [Hle|Hlt].
    + destruct (open_append utcnow) as [[]|e]; simpl.
      * split_and!; try done. apply lookup_delete_eq.
      * apply py_getitem_Ok_range in Hfield as [[_ Hhi] _].
        split_and!; try done; [lia | apply lookup_insert_eq].
    + destruct (py_getitem (leads_fields DATA) (step state + 1)); simpl;
        (split; [apply lookup_insert_eq | done]).
  - intros utcnow upd w raw state Hmsg Hraw Hsess Hstep. simpl.
    rewrite (text_router_active utcnow upd w raw state Hmsg Hraw Hsess).
    by rewrite lead_flow_eval, Hstep, py_getitem_len.
  - intros Hfields evs.
    induction evs as [|ev evs IH] using rev_ind; intros Hwrite user_id state.
    + simpl. by rewrite lookup_empty.
    + rewrite run_snoc. apply handle_sessions_below; [done|..].
      * intros utcnow upd ->. apply (Hwrite utcnow upd).
        apply elem_of_app. right. by left.
      * apply IH. intros utcnow upd Hin. apply (Hwrite utcnow upd).
        apply elem_of_app. by left.
Qed.

(** ** A whole interview *)

Lemma record_answers_lookup pairs answers0 key :
  record_answers answers0 pairs !! key =
    match last_answer key pairs with
    | Some t => Some t
    | None => answers0 !! key
    end.
Proof.
  revert answers0. induction pairs as [|[k t] pairs IH]; intros answers0; [done|].
  unfold record_answers in *. simpl. rewrite IH.
  destruct (last_answer key pairs); [done|].
  destruct (String.eqb_spec k key) as [->|Hne].
  - apply lookup_insert_eq.
  - by apply lookup_insert_ne.
Qed.

Lemma last_answer_None key pairs :
  (∀ j k t, pairs !! j = Some (k, t) → k ≠ key) → last_answer key pairs = None.
Proof.
  induction pairs as [|[k t] pairs IH]; intros Hne; [done|].
  simpl. rewrite IH.
  - destruct (String.eqb_spec k key) as [->|_]; [|done].
    by destruct (Hne 0%nat key t).
  - intros j k' t' Hj. by apply (Hne (S j) k' t').
Qed.

Lemma last_answer_at pairs i key text :
  pairs !! i = Some (key, text) →
  (∀ j k t, (i < j)%nat → pairs !! j = Some (k, t) → k ≠ key) →
  last_answer key pairs = Some text.
Proof.
  revert i. induction pairs as [|[k t] pairs IH]; intros i Hi Hlater; [done|].
  destruct i as [|i]; simpl in Hi |- *.
  - injection Hi as -> ->. rewrite last_answer_None, String.eqb_refl; [done|].
    intros j k' t' Hj. apply (Hlater (S j) k' t'); [lia | done].
  - rewrite (IH i Hi); [done|].
    intros j k' t' Hlt Hj. apply (Hlater (S j) k' t'); [lia | done].
Qed.

(** From a session at [step = len(asked)], the texts answering the
    remaining fields complete the interview; the write made for the last of
    them decides how it ends. *)
Lemma lead_flow_run (asked rest : list lead_field) (msgs : list (string * update))
    w state user_id :
  leads_fields DATA = asked ++ rest → rest ≠ [] →
  length msgs = length rest →
  Forall (text_message_of user_id) msgs →
  LEAD_STATE w !! user_id = Some state →
  step state = Z.of_nat (length asked) →
  ∃ utcnow upd, last msgs = Some (utcnow, upd) ∧
    let evs := map (λ m, ev_text m.1 m.2) msgs in
    let answers' := record_answers (answers state)
                      (zip (name <$> rest) (stripped_text <$> msgs)) in
    match open_append utcnow with
    | Ok _ =>
        Forall (λ r, r = Ok tt) (run_results evs w) ∧
        run evs w =
          {| LEAD_STATE := delete user_id (LEAD_STATE w);
             LEADS_CSV :=
               Some (rows_with_header w
                     ++ [lead_row utcnow user_id
                           (default "" (effective_user_username upd)) answers']) |}
    | Raise e =>
        run_results evs w = replicate (length rest - 1) (Ok tt) ++ [Raise e] ∧
        run evs w =
          {| LEAD_STATE :=
               <[user_id := {| step := Z.of_nat (length (leads_fields DATA));
                               answers := answers' |}]> (LEAD_STATE w);
             LEADS_CSV := LEADS_CSV w |}
    end.
Proof.
  revert asked msgs w state.
  induction rest as [|field rest IH]; intros asked msgs w state Hfields Hrest
    Hlen Hmsgs Hsess Hstep; [done|].
  destruct msgs as [|[utcnow upd] msgs]; [done|].
  apply Forall_cons in Hmsgs as [[Huid (raw & Hmsg & Hraw)] Hmsgs].
  simpl in Huid, Hmsg, Hlen. subst user_id.
  assert (py_getitem (leads_fields DATA) (step state) = Ok field) as Hfield.
  { rewrite Hstep, Hfields. apply py_getitem_nat. by apply list_lookup_middle. }
  assert (Z.of_nat (length (leads_fields DATA))
          = step state + 1 + Z.of_nat (length rest)) as Hn.
  { rewrite Hstep, Hfields, length_app. simpl. lia. }
  pose proof (text_router_active utcnow upd w raw state Hmsg Hraw Hsess) as Hrouter.
  rewrite lead_flow_eval, Hfield in Hrouter. cbv zeta in Hrouter.
  assert (stripped_text (utcnow, upd) = str_strip raw) as Hstripped.
  { unfold stripped_text. simpl. by rewrite Hmsg. }
  destruct rest as [|field' rest].
  - destruct msgs; [|done]. exists utcnow, upd.
    destruct (Z.leb_spec (Z.of_nat (length (leads_fields DATA))) (step state + 1))
      as [_|?]; [|simpl in Hn; lia].
    split; [done|]. cbv zeta. simpl. unfold world_after. simpl. rewrite Hrouter.
    rewrite Hstripped. simpl in Hn.
    destruct (open_append utcnow) as [[]|e]; simpl.
    + split; [by repeat constructor | done].
    + split; [done|]. by replace (Z.of_nat (length (leads_fields DATA)))
                         with (step state + 1) by lia.
  - destruct (Z.leb_spec (Z.of_nat (length (leads_fields DATA))) (step state + 1))
      as [?|_]; [simpl in Hn; lia|].
    assert (py_getitem (leads_fields DATA) (step state + 1) = Ok field') as Hnext.
    { rewrite Hstep, Hfields, (cons_middle field asked), app_assoc.
      replace (Z.of_nat (length asked) + 1) with (Z.of_nat (length (asked ++ [field])))
        by (rewrite length_app; simpl; lia).
      apply py_getitem_nat. by apply list_lookup_middle. }
    rewrite Hnext in Hrouter.
    set (state1 := {| step := step state + 1;
                      answers := <[name field := str_strip raw]> (answers state) |}).
    set (w1 := {| LEAD_STATE := <[effective_user_id upd := state1]> (LEAD_STATE w);
                  LEADS_CSV := LEADS_CSV w |}).
    fold state1 in Hrouter. fold w1 in Hrouter.
    destruct (IH (asked ++ [field]) msgs w1 state1)
      as (utcnow' & upd' & Hlast & Hrun).
    + by rewrite Hfields, (cons_middle field asked), app_assoc.
    + done.
    + simpl in Hlen |- *. lia.
    + done.
    + simpl. apply lookup_insert_eq.
    + simpl. rewrite Hstep, length_app. simpl. lia.
    + exists utcnow', upd'. split.
      { destruct msgs; [done|]. by rewrite last_cons_cons. }
      cbv zeta in Hrun |- *. simpl. unfold world_after. simpl.
      rewrite Hrouter. simpl.
      fold (run (map (λ m, ev_text m.1 m.2) msgs) w1). rewrite Hstripped.
      destruct (open_append utcnow') as [[]|e].
      * destruct Hrun as [Hres ->]. split; [by constructor|].
        simpl. by rewrite delete_insert_eq.
      * destruct Hrun as [-> ->]. split.
        -- simpl. by rewrite Nat.sub_0_r.
        -- simpl. by rewrite insert_insert_eq.
Qed.

(** C1 (amended): for a knowledge base with N >= 1 lead fields, starting a
    session and then sending exactly N non-empty texts appends exactly one
    row to the file (after the header, when the file was missing) and
    leaves no session for the user; no handler raises.  This is so when the
    write made for the last text returns; when it raises, the handler of the
    last text raises, no row is appended, and the session stays stored with
    [step = N] and the N answers.  The row has the
    fixed columns timestamp, user_id, username, full_name, phone, note: each
    of the last three holds the stripped text sent for the last field of
    that name, and the empty string when no field has that name.  A text is
    kept under its field's name unless a later field has the same name. *)
Theorem lead_flow_persists_one_row upd0 (msgs : list (string * update)) w :
  let fields := leads_fields DATA in
  let user_id := effective_user_id upd0 in
  let texts := stripped_text <$> msgs in
  let column := λ key, default "" (last_answer key (zip (name <$> fields) texts)) in
  let evs := ev_lead upd0 :: map (λ m, ev_text m.1 m.2) msgs in
  fields ≠ [] → length msgs = length fields →
  Forall (text_message_of user_id) msgs →
  ∃ utcnow upd, last msgs = Some (utcnow, upd) ∧
    match open_append utcnow with
    | Ok _ =>
        Forall (λ r, r = Ok tt) (run_results evs w) ∧
        LEAD_STATE (run evs w) !! user_id = None ∧
        LEAD_STATE (run evs w) = delete user_id (LEAD_STATE w) ∧
        LEADS_CSV (run evs w) =
          Some (rows_with_header w
                ++ [[cell_str utcnow; cell_int user_id;
                     cell_str (default "" (effective_user_username upd));
                     cell_str (column "full_name");
                     cell_str (column "phone");
                     cell_str (column "note")]])
    | Raise e =>
        run_results evs w = replicate (length fields) (Ok tt) ++ [Raise e] ∧
        LEAD_STATE (run evs w) !! user_id =
          Some {| step := Z.of_nat (length fields);
                  answers := record_answers ∅ (zip (name <$> fields) texts) |} ∧
        LEADS_CSV (run evs w) = LEADS_CSV w
    end ∧
    (∀ i field text,
       fields !! i = Some field → texts !! i = Some text →
       (∀ j field', (i < j)%nat → fields !! j = Some field' →
                    name field' ≠ name field) →
       column (name field) = text) ∧
    (∀ key, (∀ field, field ∈ fields → name field ≠ key) → column key = "").
Proof.
  intros fields user_id texts column evs Hfields Hlen Hmsgs.
  assert (∃ out, lead upd0 w = (with_fresh_session user_id w, out, Ok tt))
    as [out Hlead].
  { rewrite lead_eval. subst fields.
    destruct (leads_fields DATA); [done | by eexists]. }
  destruct (lead_flow_run [] fields msgs (with_fresh_session user_id w)
              {| step := 0; answers := ∅ |} user_id)
    as (utcnow & upd & Hlast & Hrun); try done.
  { simpl. apply lookup_insert_eq. }
  exists utcnow, upd. cbv zeta in Hrun.
  assert (run evs w = run (map (λ m, ev_text m.1 m.2) msgs)
                        (with_fresh_session user_id w)) as Hevs.
  { subst evs. simpl. unfold world_after at 1. simpl. by rewrite Hlead. }
  assert (run_results evs w
          = Ok tt :: run_results (map (λ m, ev_text m.1 m.2) msgs)
                       (with_fresh_session user_id w)) as Hresults.
  { subst evs. simpl. unfold world_after. simpl. by rewrite Hlead. }
  split_and!.
  - done.
  - rewrite Hevs, Hresults. destruct (open_append utcnow) as [[]|e].
    + destruct Hrun as [Hres ->]. simpl. rewrite delete_insert_eq.
      split_and!; [by constructor | apply lookup_delete_eq | done |].
      change (rows_with_header (with_fresh_session user_id w))
        with (rows_with_header w).
      unfold lead_row, dict_get, column, texts.
      rewrite !record_answers_lookup, !lookup_empty.
      by repeat case_match.
    + destruct Hrun as [-> ->]. simpl. split_and!; [|apply lookup_insert_eq | done].
      subst fields. destruct (leads_fields DATA); [done|].
      simpl. by rewrite Nat.sub_0_r.
  - intros i field text Hi Ht Hlater. unfold column.
    rewrite (last_answer_at _ i (name field) text); [done| |].
    + apply lookup_zip_Some. split; [|done]. by rewrite list_lookup_fmap, Hi.
    + intros j k t Hj [Hk _]%lookup_zip_Some.
      apply list_lookup_fmap_Some_1 in Hk as (field' & -> & Hk).
      by apply (Hlater j field').
  - intros key Hkey. unfold column. rewrite last_answer_None; [done|].
    intros j k t [Hk _]%lookup_zip_Some.
    apply list_lookup_fmap_Some_1 in Hk as (field & -> & Hk).
    apply Hkey. by eapply list_elem_of_lookup_2.
Qed.

(** ** The router without a session *)

(** The branch of [text_router] taken when the sender has no session. *)
Lemma text_router_inactive_eval utcnow upd w raw :
  message_text upd = Some raw → raw ≠ "" →
  LEAD_STATE w !! effective_user_id upd = None →
  text_router utcnow upd w =
    let text := str_strip raw in
    let lower := str_lower text in
    if str_in_tuple lower ["залишити заявку"; "оставить заявку"] then lead upd w
    else if str_in_tuple lower ["контакти"; "контакты"; "контакты"; "контакти"] then
      (w, [reply_text ("Телефон: " +:+ company_contacts_phone DATA) None], Ok tt)
    else if str_in_tuple lower ["години роботи"; "часы работы"] then
      (w, [reply_text (company_work_hours DATA) None], Ok tt)
    else
      match faq_answer text 78 with
      | Raise e => (w, [], Raise e)
      | Ok (Some (String c ans)) => (w, [reply_text (String c ans) None], Ok tt)
      | Ok _ =>
          match gen_ai_reply text (router_lang text) w with
          | (w1, out, Ok reply) =>
              (w1, out ++ [reply_text reply (Some (build_keyboard (router_lang text)))],
               Ok tt)
          | (w1, out, Raise e) => (w1, out, Raise e)
          end
      end.
Proof.
  intros Hmsg Hraw Hsess. apply String.eqb_neq in Hraw.
  unfold text_router. rewrite Hmsg, Hraw.
  unfold bind at 1. unfold get_LEAD_STATE. rewrite Hsess. cbv zeta.
  fold (router_lang (str_strip raw)).
  destruct (str_in_tuple _ ["залишити заявку"; "оставить заявку"]).
  { by destruct (lead upd w) as [[w2 out2] r]. }
  destruct (str_in_tuple _ ["контакти"; "контакты"; "контакты"; "контакти"]); [done|].
  destruct (str_in_tuple _ ["години роботи"; "часы работы"]); [done|].
  unfold bind, lift, emit.
  destruct (faq_answer (str_strip raw) 78) as [[[|c ans]|]|e]; try done;
    by destruct (gen_ai_reply _ _ w) as [[w1 out] [reply|e]].
Qed.

Lemma str_in_tuple_true x t : str_in_tuple x t = true ↔ x ∈ t.
Proof.
  unfold str_in_tuple. rewrite existsb_exists. split.
  - intros (y & Hy & Heq). apply String.eqb_eq in Heq as ->.
    by apply list_elem_of_In.
  - intros Hx. exists x. split; [by apply list_elem_of_In | apply String.eqb_refl].
Qed.

(** What [gen_ai_reply] emits is the call and the warning, never a reply. *)
Lemma gen_ai_reply_no_reply user_text lang_hint w :
  ∃ out reply, gen_ai_reply user_text lang_hint w = (w, out, Ok reply) ∧ replies out = [].
Proof.
  unfold gen_ai_reply, openai_attempt. unfold_monad.
  set (user_lang := if String.eqb lang_hint "" then detect_lang user_text
                    else lang_hint).
  destruct openai_client as [client|]; simpl.
  - destruct (client _) as [resp|e]; simpl.
    + destruct (py_getitem (choices resp) 0) as [[content|]|e]; simpl;
        try destruct (String.eqb user_lang "ru"); by eexists _, _.
    + destruct (String.eqb user_lang "ru"); by eexists _, _.
  - destruct (String.eqb user_lang "ru"); by eexists _, _.
Qed.

Lemma not_quick_reply x :
  x ∉ ["залишити заявку"; "оставить заявку"; "контакти"; "контакты";
       "години роботи"; "часы работы"] →
  str_in_tuple x ["залишити заявку"; "оставить заявку"] = false ∧
  str_in_tuple x ["контакти"; "контакты"; "контакты"; "контакти"] = false ∧
  str_in_tuple x ["години роботи"; "часы работы"] = false.
Proof.
  intros Hx. split_and!; apply not_true_is_false; rewrite str_in_tuple_true;
    intros Hin; apply Hx;
    repeat (apply elem_of_cons in Hin as [->|Hin]; [by repeat constructor|]);
    by apply elem_of_nil in Hin.
Qed.

(** X1: without a session, a text whose stripped lower-case form is one of
    the contact phrases is answered with the phone number, and one of the
    opening-hours phrases with the working hours: one reply without keyboard,
    the state untouched.  The FAQ entries are not consulted, so the answer
    comes also when a FAQ pattern does not compile. *)
Theorem quick_reply_contacts_hours utcnow upd w raw :
  message_text upd = Some raw → raw ≠ "" →
  LEAD_STATE w !! effective_user_id upd = None →
  (str_lower (str_strip raw) ∈ ["контакти"; "контакты"] →
   text_router utcnow upd w =
     (w, [reply_text ("Телефон: " +:+ company_contacts_phone DATA) None], Ok tt)) ∧
  (str_lower (str_strip raw) ∈ ["години роботи"; "часы работы"] →
   text_router utcnow upd w = (w, [reply_text (company_work_hours DATA) None], Ok tt)).
Proof.
  intros Hmsg Hraw Hsess.
  rewrite (text_router_inactive_eval utcnow upd w raw Hmsg Hraw Hsess). cbv zeta.
  split; intros Hin;
    repeat (apply elem_of_cons in Hin as [->|Hin]; [reflexivity|]);
    by apply elem_of_nil in Hin.
Qed.

(** X2: without a session and without a quick-reply phrase, the text goes to
    [faq_answer] with threshold 78.  A non-empty answer is the one reply, sent
    without keyboard.  No answer, and also an entry whose answer is the empty
    string, hands the text to [gen_ai_reply] with the router's language; its
    reply is sent with the keyboard of that language.  If [faq_answer] raises,
    the exception leaves the router and nothing is sent.  The state is
    untouched in every case. *)
Theorem text_router_faq_then_ai utcnow upd w raw :
  message_text upd = Some raw → raw ≠ "" →
  LEAD_STATE w !! effective_user_id upd = None →
  str_lower (str_strip raw) ∉
    ["залишити заявку"; "оставить заявку"; "контакти"; "контакты";
     "години роботи"; "часы работы"] →
  let text := str_strip raw in
  let lang := router_lang text in
  let ai_fallback :=
    ∃ out reply,
      gen_ai_reply text lang w = (w, out, Ok reply) ∧ replies out = [] ∧
      text_router utcnow upd w =
        (w, out ++ [reply_text reply (Some (build_keyboard lang))], Ok tt) in
  match faq_answer text 78 with
  | Raise e => text_router utcnow upd w = (w, [], Raise e)
  | Ok None => ai_fallback
  | Ok (Some ans) =>
      if String.eqb ans "" then ai_fallback
      else text_router utcnow upd w = (w, [reply_text ans None], Ok tt)
  end.
Proof.
  intros Hmsg Hraw Hsess Hquick text lang ai_fallback.
  pose proof (text_router_inactive_eval utcnow upd w raw Hmsg Hraw Hsess) as Heval.
  cbv zeta in Heval. fold text in Heval. fold lang in Heval.
  destruct (not_quick_reply _ Hquick) as (H1 & H2 & H3).
  fold text in H1, H2, H3. rewrite H1, H2, H3 in Heval.
  assert (ai_fallback ↔
          text_router utcnow upd w =
            match gen_ai_reply text lang w with
            | (w1, out, Ok reply) =>
                (w1, out ++ [reply_text reply (Some (build_keyboard lang))], Ok tt)
            | (w1, out, Raise e) => (w1, out, Raise e)
            end) as Hai.
  { destruct (gen_ai_reply_no_reply text lang w) as (out & reply & Hgen & Hout).
    rewrite Hgen. subst ai_fallback. split.
    - intros (out' & reply' & Hgen' & _ & ->). rewrite Hgen in Hgen'.
      by injection Hgen' as <- <-.
    - intros ->. by exists out, reply. }
  destruct (faq_answer text 78) as [[[|c ans]|]|e]; simpl; try done;
    by apply Hai.
Qed.

(** X3: a FAQ sub-pattern that does not compile silences the bot.  When the
    ordered scan reaches it before any matching sub-pattern, a text that is no
    quick-reply phrase, from a user without a session, makes [text_router]
    raise [re.error]: no reply is sent, and the AI fallback is not tried. *)
Theorem text_router_malformed_pattern utcnow upd w raw pre p item post :
  message_text upd = Some raw → raw ≠ "" →
  LEAD_STATE w !! effective_user_id upd = None →
  str_lower (str_strip raw) ∉
    ["залишити заявку"; "оставить заявку"; "контакти"; "контакты";
     "години роботи"; "часы работы"] →
  scan_order (faq DATA) = pre ++ (p, item) :: post →
  re_search p (str_strip raw) = re_raises →
  (∀ x, x ∈ pre → re_search x.1 (str_strip raw) = re_None) →
  text_router utcnow upd w = (w, [], Raise re_error).
Proof.
  intros Hmsg Hraw Hsess Hquick Hscan Hp Hpre.
  rewrite (text_router_inactive_eval utcnow upd w raw Hmsg Hraw Hsess). cbv zeta.
  destruct (not_quick_reply _ Hquick) as (-> & -> & ->).
  assert (faq_answer (str_strip raw) 78 = Raise re_error) as ->; [|done].
  unfold faq_answer.
  by rewrite search_items_flat, Hscan, search_flat_first, Hp.
Qed.

(** ** What every handler does *)

Lemma replies_app out1 out2 : replies (out1 ++ out2) = replies out1 ++ replies out2.
Proof. apply List.filter_app. Qed.

(** X4: a handler sends one reply for an update it answers and returns from,
    and none when it raises or when the update has no text: never two
    messages for one update, whatever the state and whatever the FAQ and the
    AI client do. *)
Theorem one_reply_per_update ev w :
  length (replies (handle ev w).1.2) =
    match (handle ev w).2 with
    | Ok _ => if carries_text ev then 1%nat else 0%nat
    | Raise _ => 0%nat
    end.
Proof.
  destruct ev as [upd|upd|upd|utcnow upd]; simpl; [done|done|..].
  - rewrite lead_eval. by destruct (leads_fields DATA).
  - destruct (message_text upd) as [raw|] eqn:Hmsg;
      [|by rewrite text_router_ignored; [|left]].
    destruct raw as [|c raw]; [by rewrite text_router_ignored; [|right]|].
    destruct (LEAD_STATE w !! effective_user_id upd) as [state|] eqn:Hsess.
    + rewrite (text_router_active utcnow upd w _ state Hmsg ltac:(done) Hsess).
      rewrite lead_flow_eval.
      destruct (py_getitem (leads_fields DATA) (step state)); [|done]. cbv zeta.
      destruct (_ <=? _); [by destruct (open_append utcnow)|].
      by destruct (py_getitem (leads_fields DATA) (step state + 1)).
    + rewrite (text_router_inactive_eval utcnow upd w _ Hmsg ltac:(done) Hsess).
      cbv zeta.
      destruct (str_in_tuple _ ["залишити заявку"; "оставить заявку"]).
      { rewrite lead_eval. by destruct (leads_fields DATA). }
      destruct (str_in_tuple _ ["контакти"; "контакты"; "контакты"; "контакти"]);
        [done|].
      destruct (str_in_tuple _ ["години роботи"; "часы работы"]); [done|].
      destruct (gen_ai_reply_no_reply (str_strip (String c raw))
                  (router_lang (str_strip (String c raw))) w)
        as (out & reply & Hgen & Hout).
      destruct (faq_answer _ 78) as [[[|c' ans]|]|e]; try done;
        rewrite Hgen; simpl; by rewrite replies_app, Hout.
Qed.

Lemma world_after_other_user ev w user_id :
  user_id ≠ event_user ev →
  LEAD_STATE (world_after ev w) !! user_id = LEAD_STATE w !! user_id.
Proof.
  intros Hne. unfold world_after.
  destruct ev as [upd|upd|upd|utcnow upd]; simpl in *; [done|done|..].
  - rewrite lead_eval.
    by destruct (leads_fields DATA); simpl; rewrite lookup_insert_ne.
  - destruct (message_text upd) as [raw|] eqn:Hmsg;
      [|by rewrite text_router_ignored; [|left]].
    destruct (String.eqb_spec raw "") as [->|Hraw];
      [by rewrite text_router_ignored; [|right]|].
    destruct (LEAD_STATE w !! effective_user_id upd) as [state|] eqn:Hsess.
    + rewrite (text_router_active utcnow upd w raw state Hmsg Hraw Hsess).
      rewrite lead_flow_eval.
      destruct (py_getitem (leads_fields DATA) (step state)); [|done]. cbv zeta.
      destruct (_ <=? _); simpl.
      { destruct (open_append utcnow); simpl;
          [by rewrite lookup_delete_ne | by rewrite lookup_insert_ne]. }
      by destruct (py_getitem (leads_fields DATA) (step state + 1)); simpl;
        rewrite lookup_insert_ne.
    + destruct (text_router_inactive utcnow upd w raw Hmsg Hraw Hsess)
        as [[_ ->]|[_ (out & r & ->)]]; [|done].
      rewrite lead_eval.
      by destruct (leads_fields DATA); simpl; rewrite lookup_insert_ne.
Qed.

(** X5: a handler run for one user leaves the session of every other user as
    it was (present or absent, same step, same answers); [start] and
    [help_cmd] change nothing at all. *)
Theorem handlers_touch_own_session ev w :
  (∀ user_id, user_id ≠ event_user ev →
     LEAD_STATE (world_after ev w) !! user_id = LEAD_STATE w !! user_id) ∧
  (∀ upd, ev = ev_start upd ∨ ev = ev_help upd → world_after ev w = w).
Proof.
  split.
  - intros user_id. apply world_after_other_user.
  - by intros upd [->| ->].
Qed.

Lemma world_after_csv ev w :
  LEADS_CSV (world_after ev w) = LEADS_CSV w ∨
  ∃ utcnow user_id username answers1,
    LEADS_CSV (world_after ev w) =
      Some (rows_with_header w ++ [lead_row utcnow user_id username answers1]).
Proof.
  destruct (handle_transition ev w)
    as [->|[(u & ->)|[(u & st & f & t & Hu & Hf & Hlt & ->)
                     |[(u & st & f & t & now & un & Hu & Hf & Hle & ->)
                      |(u & st & f & t & now & upd & e & Hu & Hf & Hle & Hev & Hopen
                        & ->)]]]];
    [by left..| |by left].
  right. by eexists _, _, _, _.
Qed.

(** The rows written during a run: each one a row of [save_lead]. *)
Lemma run_csv evs w :
  ∃ added,
    (length added ≤ length evs)%nat ∧
    Forall (λ row, ∃ utcnow user_id username answers1,
                     row = lead_row utcnow user_id username answers1) added ∧
    rows_with_header (run evs w) = rows_with_header w ++ added ∧
    LEADS_CSV (run evs w) =
      match added with
      | [] => LEADS_CSV w
      | _ :: _ => Some (rows_with_header w ++ added)
      end.
Proof.
  revert w. induction evs as [|ev evs IH]; intros w.
  { exists []. split_and!; try done. by rewrite app_nil_r. }
  simpl. destruct (IH (world_after ev w)) as (added & Hlen & Hrows & Hrwh & Hcsv).
  fold (run evs (world_after ev w)).
  destruct (world_after_csv ev w) as [Hsame|(now & u & un & ans & Hnew)].
  - exists added.
    assert (rows_with_header (world_after ev w) = rows_with_header w) as Heq
      by (unfold rows_with_header; by rewrite Hsame).
    rewrite Heq, Hsame in *. split_and!; try done. lia.
  - exists (lead_row now u un ans :: added).
    assert (rows_with_header (world_after ev w)
            = rows_with_header w ++ [lead_row now u un ans]) as Heq
      by (unfold rows_with_header at 1; by rewrite Hnew).
    rewrite Heq in *. split_and!.
    + simpl. lia.
    + constructor; [by eexists _, _, _, _ | done].
    + by rewrite Hrwh, <- app_assoc.
    + rewrite Hcsv, Hnew. destruct added; [done|]. by rewrite <- app_assoc.
Qed.



(** ** Sessions and their answers *)

Lemma py_getitem_nonneg {A} (l : list A) (i : Z) (x : A) :
  0 ≤ i → py_getitem l i = Ok x → l !! Z.to_nat i = Some x.
Proof.
  intros Hi. unfold py_getitem. cbv zeta.
  destruct (Z.ltb_spec i 0); [lia|].
  destruct ((i <? 0) || (Z.of_nat (length l) <=? i)); [done|].
  destruct (l !! Z.to_nat i); [by intros [= ->] | done].
Qed.

(** X8: in every state the program reaches, the answers of a stored session
    are answers to fields already asked: each key is the name of a field at
    an index below the session's [step].  A fresh session holds no answer. *)
Theorem session_answers_of_asked_fields w user_id state key text :
  reachable w →
  LEAD_STATE w !! user_id = Some state →
  answers state !! key = Some text →
  ∃ i field, 0 ≤ Z.of_nat i < step state ∧
    leads_fields DATA !! i = Some field ∧ name field = key.
Proof.
  intros Hw Hsess Hkey.
  assert (∀ w, reachable w →
            ∀ user_id state, LEAD_STATE w !! user_id = Some state →
              0 ≤ step state ∧
              ∀ key text, answers state !! key = Some text →
                ∃ i field, 0 ≤ Z.of_nat i < step state ∧
                  leads_fields DATA !! i = Some field ∧ name field = key)
    as Hinv; [|by apply (proj2 (Hinv w Hw user_id state Hsess) key text)].
  clear.
  apply (reachable_invariant
           (λ w, ∀ user_id state, LEAD_STATE w !! user_id = Some state →
                   0 ≤ step state ∧
                   ∀ key text, answers state !! key = Some text →
                     ∃ i field, 0 ≤ Z.of_nat i < step state ∧
                       leads_fields DATA !! i = Some field ∧ name field = key)).
  - intros user_id state Hs. simpl in Hs. by rewrite lookup_empty in Hs.
  - intros ev w Hw.
    assert (∀ u st f t,
              LEAD_STATE w !! u = Some st →
              py_getitem (leads_fields DATA) (step st) = Ok f →
              ∀ u' st',
                <[u := {| step := step st + 1;
                          answers := <[name f := t]> (answers st) |}]>
                  (LEAD_STATE w) !! u' = Some st' →
                0 ≤ step st' ∧
                ∀ key text, answers st' !! key = Some text →
                  ∃ i field, 0 ≤ Z.of_nat i < step st' ∧
                    leads_fields DATA !! i = Some field ∧ name field = key)
      as Hadvance.
    { intros u st f t Hu Hf u' st'.
      destruct (Hw u st Hu) as [Hpos Hkeys].
      intros [[-> <-]|[_ H]]%lookup_insert_Some; [|by eapply Hw].
      simpl. split; [lia|].
      intros key text [[<- _]|[_ Hk]]%lookup_insert_Some.
      * exists (Z.to_nat (step st)), f. split_and!; try done; try lia.
        by apply py_getitem_nonneg.
      * destruct (Hkeys key text Hk) as (i & field & Hi & Hfield & Hname).
        exists i, field. split_and!; try done; lia. }
    destruct (handle_transition ev w)
      as [->|[(u & ->)|[(u & st & f & t & Hu & Hf & Hlt & ->)
                       |[(u & st & f & t & now & un & Hu & Hf & Hle & ->)
                        |(u & st & f & t & now & upd & e & Hu & Hf & Hle & Hev & Hopen
                          & ->)]]]];
      [done|..]; intros u' st'; simpl.
    + intros [[-> <-]|[_ H]]%lookup_insert_Some; [|by eapply Hw].
      simpl. split; [done|]. intros key text Hk. by rewrite lookup_empty in Hk.
    + by apply Hadvance.
    + intros [_ H]%lookup_delete_Some. by eapply Hw.
    + by apply Hadvance.
Qed.

(** ** More on the FAQ resolver *)

(** X9: lowering the threshold never loses an answer: an answer returned at
    one threshold is returned at every lower one.  An exception does not
    depend on the threshold at all: what [faq_answer] raises at one
    threshold it raises at every threshold, lower or higher. *)
Theorem faq_answer_threshold_monotone u th :
  (∀ th' ans, th' ≤ th →
     faq_answer u th = Ok (Some ans) → faq_answer u th' = Ok (Some ans)) ∧
  (∀ th' e, faq_answer u th = Raise e → faq_answer u th' = Raise e).
Proof.
  split.
  - intros th' ans Hth. unfold faq_answer.
    destruct (search_items (faq DATA) u) as [[ans0|]|e0] eqn:Hscan; [done| |done].
    destruct (faq_answer_after_scan_Ok u th' Hscan) as [r' Hr'].
    unfold faq_answer in Hr'. rewrite Hscan in Hr'.
    destruct (extractOne token_set_ratio u (map q (faq DATA))) as [[[c s] k]|];
      [|done].
    destruct (Qle_bool (inject_Z th) s) eqn:Hle; [|done].
    assert (Qle_bool (inject_Z th') s = true) as ->; [|done].
    apply Qle_bool_iff. apply Qle_bool_iff in Hle.
    eapply Qle_trans; [|exact Hle]. by rewrite <- Zle_Qle.
  - intros th' e.
    destruct (search_items (faq DATA) u) as [[ans0|]|e0] eqn:Hscan.
    + unfold faq_answer. by rewrite Hscan.
    + destruct (faq_answer_after_scan_Ok u th Hscan) as [r Hr]. by rewrite Hr.
    + unfold faq_answer. by rewrite Hscan.
Qed.

(** X10: [faq_answer] never invents an answer: what it returns is the answer
    of an entry of the knowledge base; with no entries it returns [None] for
    every utterance and threshold. *)
Theorem faq_answer_from_knowledge_base u th :
  (∀ ans, faq_answer u th = Ok (Some ans) → ∃ item, item ∈ faq DATA ∧ a item = ans) ∧
  (faq DATA = [] → faq_answer u th = Ok None).
Proof.
  split.
  - intros ans Hans.
    pose proof (search_flat_inv (scan_order (faq DATA)) u) as Hinv.
    rewrite <- search_items_flat in Hinv.
    destruct (search_items (faq DATA) u) as [[ans0|]|e0] eqn:Hscan.
    + unfold faq_answer in Hans. rewrite Hscan in Hans. injection Hans as ->.
      destruct Hinv as (pre & p & item & post & Hl & -> & _).
      exists item. split; [|done].
      assert ((p, item) ∈ scan_order (faq DATA)) as Hin
        by (rewrite Hl; apply elem_of_app; right; left).
      by apply elem_of_scan_order in Hin as (item' & p' & Hitem & _ & [= _ ->]).
    + pose proof (faq_answer_after_scan u th Hscan) as Hfuzzy.
      destruct (faq DATA) as [|item0 items] eqn:Hfaq; [congruence|].
      rewrite <- Hfaq in *.
      destruct Hfuzzy as (n & best & Hn & _ & _ & Heq).
      rewrite Heq in Hans. destruct (Qle_bool _ _); [|done].
      injection Hans as <-. exists best. split; [|done].
      by eapply list_elem_of_lookup_2.
    + unfold faq_answer in Hans. by rewrite Hscan in Hans.
  - intros Hfaq. unfold faq_answer. by rewrite Hfaq.
Qed.

(** ** More on the language *)

(** X11: three markers ("доставка", "меню", "оплата") are in both lists and
    cancel out, so [detect_lang] answers "ru" exactly when more Russian-only
    than Ukrainian-only markers occur; a text without a Russian-only marker is
    "uk".  The Ukrainian marker "адреса" contains the Russian marker "адрес",
    so it always counts for both sides. *)
Theorem detect_lang_distinct_markers text :
  let occurs := λ w, str_in w (str_lower text) in
  let count_ru := Z.of_nat (length (List.filter occurs ru_only_markers)) in
  let count_uk := Z.of_nat (length (List.filter occurs uk_only_markers)) in
  (detect_lang text = "ru" ↔ count_uk < count_ru) ∧
  (List.filter occurs ru_only_markers = [] → detect_lang text = "uk") ∧
  (occurs "адреса" = true → occurs "адрес" = true).
Proof.
  intros occurs count_ru count_uk.
  assert (detect_lang text = "ru" ↔ count_uk < count_ru) as Hiff.
  { subst count_ru count_uk. rewrite <- !sum_1_for_if_filter.
    unfold detect_lang, ru_markers, uk_markers, ru_only_markers, uk_only_markers.
    fold occurs. simpl.
    destruct (Z.ltb_spec
                ((if occurs "привіт" then 1 else 0) +
                 ((if occurs "скільки" then 1 else 0) +
                  ((if occurs "ціна" then 1 else 0) +
                   ((if occurs "доставка" then 1 else 0) +
                    ((if occurs "адреса" then 1 else 0) +
                     ((if occurs "меню" then 1 else 0) +
                      ((if occurs "оплата" then 1 else 0) +
                       ((if occurs "бронювання" then 1 else 0) +
                        ((if occurs "режим" then 1 else 0) + 0)))))))))
                ((if occurs "привет" then 1 else 0) +
                 ((if occurs "здравствуйте" then 1 else 0) +
                  ((if occurs "сколько" then 1 else 0) +
                   ((if occurs "цена" then 1 else 0) +
                    ((if occurs "доставка" then 1 else 0) +
                     ((if occurs "адрес" then 1 else 0) +
                      ((if occurs "меню" then 1 else 0) +
                       ((if occurs "оплата" then 1 else 0) +
                        ((if occurs "резерв" then 1 else 0) + 0))))))))))
      as [Hlt|Hge]; split; try done; lia. }
  split_and!; [done| |].
  - intros Hnone.
    assert (¬ count_uk < count_ru) as Hno
      by (subst count_ru; rewrite Hnone; simpl; lia).
    unfold detect_lang in *. revert Hiff.
    destruct (_ <? _); [|done]. intros Hiff. destruct Hno. by apply Hiff.
  - subst occurs. simpl. rewrite !str_in_spec.
    intros (pre & post & ->). by exists pre, ("а" +:+ post).
Qed.

(** X12: the language of the router's replies is always one of the two tags:
    [BOT_LANG] when that is "uk" or "ru", else the detected language of the
    text.  So the thank-you message, the keyboard and the canned fallback of a
    reply are in one and the same language, although the helpers test
    different tags; and [gen_ai_reply], handed a non-empty hint, takes the
    router's language over the language of the utterance. *)
Theorem router_lang_consistent text :
  (router_lang text = "uk" ∧
   done_msg (router_lang text) = "Дякуємо! Заявку передано менеджеру. Ми на зв'язку 👌" ∧
   build_keyboard (router_lang text) =
     ReplyKeyboardMarkup
       [["Меню"; "Доставка"]; ["Залишити заявку"]; ["Контакти"; "Години роботи"]] true ∧
   (openai_client = None →
    ∀ u w, gen_ai_reply u (router_lang text) w = (w, [], Ok fallback_uk))) ∨
  (router_lang text = "ru" ∧
   done_msg (router_lang text) = "Спасибо! Заявка передана менеджеру. Мы на связи 👌" ∧
   build_keyboard (router_lang text) =
     ReplyKeyboardMarkup
       [["Меню"; "Доставка"]; ["Оставить заявку"]; ["Контакты"; "Часы работы"]] true ∧
   (openai_client = None →
    ∀ u w, gen_ai_reply u (router_lang text) w = (w, [], Ok fallback_ru))).
Proof.
  assert (router_lang text = "uk" ∨ router_lang text = "ru") as [Hl|Hl].
  { unfold router_lang.
    destruct (str_in_tuple BOT_LANG ["uk"; "ru"]) eqn:Hin; simpl.
    - apply str_in_tuple_true in Hin.
      apply elem_of_cons in Hin as [->|Hin]; [by left|].
      apply list_elem_of_singleton in Hin as ->. by right.
    - unfold detect_lang. destruct (_ <? _); auto. }
  - left. rewrite Hl. split_and!; try done.
    intros Hclient u w. unfold gen_ai_reply. by rewrite Hclient.
  - right. rewrite Hl. split_and!; try done.
    intros Hclient u w. unfold gen_ai_reply. by rewrite Hclient.
Qed.

(** X13: [start] and [help_cmd] fall back differently.  With [BOT_LANG] "ru"
    both answer in Russian and with "uk" both in Ukrainian; with any other
    value [start] greets in Ukrainian, under the Ukrainian keyboard, while
    [help_cmd] lists the commands in Russian.  Neither touches the state. *)
Theorem start_help_fallback_language upd w :
  let greeting_ru := "Привет! Я AI‑помощник магазина Shop Cozy. Задайте вопрос или нажмите кнопки ниже." in
  let greeting_uk := "Привіт! Я AI‑помічник магазину Shop Cozy. Питайте що завгодно або тисніть кнопки нижче." in
  let help_uk := "Команди:" +:+ newline +:+ "/start — старт" +:+ newline
                 +:+ "/help — допомога" +:+ newline
                 +:+ "/lead — залишити заявку" +:+ newline in
  let help_ru := "Команды:" +:+ newline +:+ "/start — старт" +:+ newline
                 +:+ "/help — помощь" +:+ newline
                 +:+ "/lead — оставить заявку" +:+ newline in
  let keyboard_ru :=
    ReplyKeyboardMarkup
      [["Меню"; "Доставка"]; ["Оставить заявку"]; ["Контакты"; "Часы работы"]] true in
  let keyboard_uk :=
    ReplyKeyboardMarkup
      [["Меню"; "Доставка"]; ["Залишити заявку"]; ["Контакти"; "Години роботи"]] true in
  (BOT_LANG = "ru" →
   start upd w = (w, [reply_text greeting_ru (Some keyboard_ru)], Ok tt) ∧
   help_cmd upd w = (w, [reply_text help_ru None], Ok tt)) ∧
  (BOT_LANG = "uk" →
   start upd w = (w, [reply_text greeting_uk (Some keyboard_uk)], Ok tt) ∧
   help_cmd upd w = (w, [reply_text help_uk None], Ok tt)) ∧
  (BOT_LANG ≠ "ru" → BOT_LANG ≠ "uk" →
   start upd w = (w, [reply_text greeting_uk (Some keyboard_uk)], Ok tt) ∧
   help_cmd upd w = (w, [reply_text help_ru None], Ok tt)).
Proof.
  intros greeting_ru greeting_uk help_uk help_ru keyboard_ru keyboard_uk.
  unfold start, help_cmd, build_keyboard, emit. split_and!.
  - by intros ->.
  - by intros ->.
  - intros Hru Huk. apply String.eqb_neq in Hru, Huk. by rewrite Hru, Huk.
Qed.

(** ** Interviews of several users at once *)

(** One text of an interview at [step = len(asked)]. *)
Lemma text_step asked field rest utcnow upd raw w state :
  leads_fields DATA = asked ++ field :: rest →
  message_text upd = Some raw → raw ≠ "" →
  LEAD_STATE w !! effective_user_id upd = Some state →
  step state = Z.of_nat (length asked) →
  world_after (ev_text utcnow upd) w =
    let answers1 := <[name field := str_strip raw]> (answers state) in
    let w1 :=
      {| LEAD_STATE :=
           <[effective_user_id upd :=
               {| step := step state + 1; answers := answers1 |}]> (LEAD_STATE w);
         LEADS_CSV := LEADS_CSV w |} in
    match rest, open_append utcnow with
    | [], Ok _ =>
        {| LEAD_STATE := delete (effective_user_id upd) (LEAD_STATE w);
           LEADS_CSV :=
             Some (rows_with_header w
                   ++ [lead_row utcnow (effective_user_id upd)
                         (default "" (effective_user_username upd)) answers1]) |}
    | _, _ => w1
    end.
Proof.
  intros Hfields Hmsg Hraw Hsess Hstep. unfold world_after. simpl.
  rewrite (text_router_active utcnow upd w raw state Hmsg Hraw Hsess).
  rewrite lead_flow_eval.
  assert (py_getitem (leads_fields DATA) (step state) = Ok field) as ->.
  { rewrite Hstep, Hfields. apply py_getitem_nat. by apply list_lookup_middle. }
  assert (Z.of_nat (length (leads_fields DATA))
          = step state + 1 + Z.of_nat (length rest)) as Hn.
  { rewrite Hstep, Hfields, length_app. simpl. lia. }
  cbv zeta. destruct rest as [|field' rest].
  - destruct (Z.leb_spec (Z.of_nat (length (leads_fields DATA))) (step state + 1))
      as [_|?]; [|simpl in Hn; lia].
    by destruct (open_append utcnow).
  - destruct (Z.leb_spec (Z.of_nat (length (leads_fields DATA))) (step state + 1))
      as [?|_]; [simpl in Hn; lia|].
    by destruct (py_getitem (leads_fields DATA) (step state + 1)).
Qed.

Lemma run_other_users evs w user_id :
  filter (λ ev, event_user ev = user_id) evs = [] →
  LEAD_STATE (run evs w) !! user_id = LEAD_STATE w !! user_id.
Proof.
  revert w. induction evs as [|ev evs IH]; intros w Hf; [done|].
  rewrite filter_cons in Hf. destruct (decide (event_user ev = user_id)); [done|].
  simpl. fold (run evs (world_after ev w)). rewrite (IH _ Hf).
  by apply world_after_other_user.
Qed.

Lemma rows_with_header_after ev w :
  ∃ added, rows_with_header (world_after ev w) = rows_with_header w ++ added.
Proof.
  destruct (world_after_csv ev w) as [Hsame|(now & u & un & ans & Hnew)].
  - exists []. unfold rows_with_header. by rewrite Hsame, app_nil_r.
  - eexists. unfold rows_with_header at 1. by rewrite Hnew.
Qed.

(** The texts of one user complete the interview whatever the updates of
    other users in between; the write made for the last text decides how it
    ends. *)
Lemma lead_flow_run_interleaved evs asked rest (msgs : list (string * update))
    w state user_id :
  leads_fields DATA = asked ++ rest → rest ≠ [] →
  length msgs = length rest →
  Forall (text_message_of user_id) msgs →
  LEAD_STATE w !! user_id = Some state →
  step state = Z.of_nat (length asked) →
  filter (λ ev, event_user ev = user_id) evs = map (λ m, ev_text m.1 m.2) msgs →
  ∃ utcnow upd, last msgs = Some (utcnow, upd) ∧
    let answers' := record_answers (answers state)
                      (zip (name <$> rest) (stripped_text <$> msgs)) in
    match open_append utcnow with
    | Ok _ =>
        ∃ before after,
          LEAD_STATE (run evs w) !! user_id = None ∧
          LEADS_CSV (run evs w) =
            Some (rows_with_header w ++ before
                  ++ lead_row utcnow user_id
                       (default "" (effective_user_username upd)) answers'
                     :: after)
    | Raise e =>
        LEAD_STATE (run evs w) !! user_id =
          Some {| step := Z.of_nat (length (leads_fields DATA));
                  answers := answers' |}
    end.
Proof.
  revert asked rest msgs w state.
  induction evs as [|ev evs IH]; intros asked rest msgs w state Hfields Hrest
    Hlen Hmsgs Hsess Hstep Hfilter.
  { destruct msgs; [|done]. by destruct rest. }
  rewrite filter_cons in Hfilter. simpl. fold (run evs (world_after ev w)).
  destruct (decide (event_user ev = user_id)) as [Hown|Hother].
  - destruct msgs as [|[utcnow upd] msgs]; [done|].
    simpl in Hfilter. injection Hfilter as -> Hfilter.
    destruct rest as [|field rest]; [done|].
    apply Forall_cons in Hmsgs as [[Huid (raw & Hmsg & Hraw)] Hmsgs].
    simpl in Huid, Hmsg, Hlen, Hown. subst user_id.
    pose proof (text_step asked field rest utcnow upd raw w state
                  Hfields Hmsg Hraw Hsess Hstep) as Hw1.
    cbv zeta in Hw1.
    assert (stripped_text (utcnow, upd) = str_strip raw) as Hstripped.
    { unfold stripped_text. simpl. by rewrite Hmsg. }
    destruct rest as [|field' rest].
    + destruct msgs; [|done]. simpl in Hfilter.
      exists utcnow, upd. split; [done|]. cbv zeta. simpl. rewrite Hstripped.
      rewrite (run_other_users _ _ _ Hfilter).
      destruct (open_append utcnow) as [[]|e].
      * destruct (run_csv evs (world_after (ev_text utcnow upd) w))
          as (added & _ & _ & _ & Hcsv).
        exists [], added. split.
        -- rewrite Hw1. simpl. apply lookup_delete_eq.
        -- rewrite Hcsv. unfold rows_with_header at 1 2. rewrite Hw1. simpl.
           destruct added; [done|]. by rewrite <- app_assoc.
      * rewrite Hw1. simpl. rewrite lookup_insert_eq.
        replace (Z.of_nat (length (leads_fields DATA))) with (step state + 1);
          [done|].
        rewrite Hstep, Hfields, length_app. simpl. lia.
    + assert (world_after (ev_text utcnow upd) w =
              {| LEAD_STATE :=
                   <[effective_user_id upd :=
                       {| step := step state + 1;
                          answers := <[name field := str_strip raw]> (answers state) |}]>
                     (LEAD_STATE w);
                 LEADS_CSV := LEADS_CSV w |}) as Hw1'
        by (by destruct (open_append utcnow)).
      clear Hw1.
      destruct (IH (asked ++ [field]) (field' :: rest) msgs
                  (world_after (ev_text utcnow upd) w)
                  {| step := step state + 1;
                     answers := <[name field := str_strip raw]> (answers state) |})
        as (utcnow' & upd' & Hlast & Hend).
      * by rewrite Hfields, (cons_middle field asked), app_assoc.
      * done.
      * simpl in Hlen |- *. lia.
      * done.
      * rewrite Hw1'. simpl. apply lookup_insert_eq.
      * simpl. rewrite Hstep, length_app. simpl. lia.
      * done.
      * exists utcnow', upd'. split.
        { destruct msgs; [done|]. by rewrite last_cons_cons. }
        cbv zeta in Hend |- *. simpl. rewrite Hstripped.
        destruct (open_append utcnow') as [[]|e]; [|done].
        destruct Hend as (before & after & Hnone & Hcsv).
        exists before, after. split; [done|].
        rewrite Hcsv. unfold rows_with_header at 1. by rewrite Hw1'.
  - destruct (IH asked rest msgs (world_after ev w) state)
      as (utcnow & upd & Hlast & Hend); try done.
    { by rewrite world_after_other_user. }
    exists utcnow, upd. split; [done|]. cbv zeta in Hend |- *.
    destruct (open_append utcnow) as [[]|e]; [|done].
    destruct Hend as (before & after & Hnone & Hcsv).
    destruct (rows_with_header_after ev w) as [added Hadded].
    exists (added ++ before), after. split; [done|].
    rewrite Hcsv, Hadded. by rewrite <- !app_assoc.
Qed.

(** X14: interviews of different users do not disturb each other.  In any
    sequence of updates in which one user's own updates are a start of the
    flow followed by exactly N non-empty texts (N >= 1 the number of fields),
    with any updates of other users in between, before and after, that user
    ends without a session and the file holds the row made of that user's
    texts; the rows that were there or that others add stay around it.  This
    is so when the write made for the user's last text returns; when it
    raises, the user's session stays stored with [step = N] and that user's
    N answers, whatever the others do. *)
Theorem lead_flow_interleaved evs upd0 (msgs : list (string * update)) w :
  let user_id := effective_user_id upd0 in
  let answers' := record_answers ∅
                    (zip (name <$> leads_fields DATA) (stripped_text <$> msgs)) in
  leads_fields DATA ≠ [] →
  length msgs = length (leads_fields DATA) →
  Forall (text_message_of user_id) msgs →
  filter (λ ev, event_user ev = user_id) evs
    = ev_lead upd0 :: map (λ m, ev_text m.1 m.2) msgs →
  ∃ utcnow upd, last msgs = Some (utcnow, upd) ∧
    match open_append utcnow with
    | Ok _ =>
        ∃ before after,
          LEAD_STATE (run evs w) !! user_id = None ∧
          LEADS_CSV (run evs w) =
            Some (rows_with_header w ++ before
                  ++ lead_row utcnow user_id
                       (default "" (effective_user_username upd)) answers'
                     :: after)
    | Raise e =>
        LEAD_STATE (run evs w) !! user_id =
          Some {| step := Z.of_nat (length (leads_fields DATA));
                  answers := answers' |}
    end.
Proof.
  intros user_id answers' Hfields Hlen Hmsgs. revert w.
  induction evs as [|ev evs IH]; intros w Hfilter; [done|].
  rewrite filter_cons in Hfilter. simpl. fold (run evs (world_after ev w)).
  destruct (decide (event_user ev = user_id)) as [Hown|Hother].
  - injection Hfilter as -> Hfilter.
    assert (world_after (ev_lead upd0) w = with_fresh_session user_id w) as Hw1.
    { unfold world_after. simpl. rewrite lead_eval.
      by destruct (leads_fields DATA). }
    destruct (lead_flow_run_interleaved evs [] (leads_fields DATA) msgs
                (world_after (ev_lead upd0) w) {| step := 0; answers := ∅ |} user_id)
      as (utcnow & upd & Hlast & Hend); try done.
    { rewrite Hw1. simpl. apply lookup_insert_eq. }
    exists utcnow, upd. split; [done|]. cbv zeta in Hend.
    destruct (open_append utcnow) as [[]|e]; [|done].
    destruct Hend as (before & after & Hnone & Hcsv).
    exists before, after. split; [done|].
    rewrite Hcsv. unfold rows_with_header at 1. by rewrite Hw1.
  - destruct (IH (world_after ev w) Hfilter) as (utcnow & upd & Hlast & Hend).
    exists utcnow, upd. split; [done|].
    destruct (open_append utcnow) as [[]|e]; [|done].
    destruct Hend as (before & after & Hnone & Hcsv).
    destruct (rows_with_header_after ev w) as [added Hadded].
    exists (added ++ before), after. split; [done|].
    rewrite Hcsv, Hadded. by rewrite <- !app_assoc.
Qed.

(** X15: with an empty field list a start of the flow locks the user out.
    The start raises [IndexError] but leaves its session in place, and from
    then on every text of that user (a question, a quick-reply phrase) raises
    [IndexError] too: nothing is answered and the session is never removed. *)
Theorem empty_fields_lock_out upd0 (msgs : list (string * update)) w :
  let user_id := effective_user_id upd0 in
  let evs := ev_lead upd0 :: map (λ m, ev_text m.1 m.2) msgs in
  leads_fields DATA = [] →
  Forall (text_message_of user_id) msgs →
  Forall (λ r, r = Raise IndexError) (run_results evs w) ∧
  run evs w = with_fresh_session user_id w.
Proof.
  intros user_id evs Hfields Hmsgs. subst evs. simpl.
  assert (handle (ev_lead upd0) w
          = (with_fresh_session user_id w, [], Raise IndexError)) as Hlead.
  { simpl. by rewrite lead_eval, Hfields. }
  unfold world_after at 1 2. rewrite Hlead. simpl.
  fold (run (map (λ m, ev_text m.1 m.2) msgs) (with_fresh_session user_id w)).
  assert (∀ m, text_message_of user_id m →
            handle (ev_text m.1 m.2) (with_fresh_session user_id w)
            = (with_fresh_session user_id w, [], Raise IndexError)) as Hstep.
  { intros [utcnow upd] [Huid (raw & Hmsg & Hraw)]. simpl in *.
    rewrite (text_router_active utcnow upd _ raw {| step := 0; answers := ∅ |}
               Hmsg Hraw); [|rewrite Huid; apply lookup_insert_eq].
    by rewrite lead_flow_eval, Hfields. }
  assert (Forall (λ r, r = Raise IndexError)
            (run_results (map (λ m, ev_text m.1 m.2) msgs)
               (with_fresh_session user_id w)) ∧
          run (map (λ m, ev_text m.1 m.2) msgs) (with_fresh_session user_id w)
          = with_fresh_session user_id w) as [Hres Hrun].
  { induction Hmsgs as [|m msgs Hm Hmsgs IH]; [done|].
    pose proof (Hstep m Hm) as Hs. simpl in Hs.
    simpl. unfold world_after. simpl. rewrite Hs. simpl.
    destruct IH as [IH1 IH2]. split; [by constructor | done]. }
  simpl in Hlead. rewrite Hlead. split; [by constructor | done].
Qed.

End bot.

(** ** The theorems at concrete inputs *)

Abbreviation demo_env f :=
  (f demo_lower demo_strip demo_re_search demo_ratio demo_json_dumps
     "uk" "gpt-4o-mini" "Ти помічник магазину Shop Cozy.").

(** Two texts answer the two fields of [demo_data]: one row, no session. *)
Lemma lead_flow_persists_one_row_witness :
  let evs := [ev_lead (olena "/lead");
              ev_text "2026-01-05T10:00:00" (olena "Олена");
              ev_text "2026-01-05T10:01:00" (olena " 0501234567 ")] in
  let w' := demo_env run demo_data None demo_open evs initial_world in
  LEADS_CSV w' =
    Some [csv_header;
          [cell_str "2026-01-05T10:01:00"; cell_int 42; cell_str "olena";
           cell_str "Олена"; cell_str "0501234567"; cell_str ""]] ∧
  LEAD_STATE w' !! 42 = None.
Proof.
  destruct (demo_env lead_flow_persists_one_row demo_data None demo_open (olena "/lead")
              [("2026-01-05T10:00:00", olena "Олена");
               ("2026-01-05T10:01:00", olena " 0501234567 ")] initial_world)
    as (utcnow & upd & Hlast & Hend & _ & _).
  - done.
  - reflexivity.
  - repeat constructor; eexists; (split; [reflexivity | discriminate]).
  - injection Hlast as <- <-. unfold demo_open in Hend.
    destruct Hend as (_ & Hnone & _ & Hcsv). split; [|exact Hnone].
    etransitivity; [exact Hcsv | reflexivity].
Defined.

(** The one field of [email_data] is "email": its answer reaches no column
    of the row, so the record does not hold the submitted text. *)
Lemma lead_flow_drops_unlisted_field :
  let evs := [ev_lead (olena "/lead");
              ev_text "2026-01-05T10:00:00" (olena "olena@example.com")] in
  let w' := demo_env run email_data None demo_open evs initial_world in
  let row := [cell_str "2026-01-05T10:00:00"; cell_int 42; cell_str "olena";
              cell_str ""; cell_str ""; cell_str ""] in
  demo_env run_results email_data None demo_open evs initial_world = [Ok tt; Ok tt] ∧
  LEADS_CSV w' = Some [csv_header; row] ∧
  cell_str "olena@example.com" ∉ row.
Proof.
  split_and!; [reflexivity | reflexivity |].
  intros H. repeat (apply elem_of_cons in H as [H|H]; [discriminate|]).
  by apply elem_of_nil in H.
Qed.


(** "delivery" is the second sub-pattern of the first entry. *)
Lemma faq_answer_first_match_witness :
  faq_answer demo_strip demo_re_search demo_ratio demo_data "Is there delivery?" 78
    = Ok (Some "Доставка 1-2 дні").
Proof.
  refine (proj2 (faq_answer_first_match demo_strip demo_re_search demo_ratio demo_data
                   [] {| q := "доставка|delivery"; a := "Доставка 1-2 дні" |}
                   [ {| q := "яка вартість доставки"; a := "Від 50 грн" |} ]
                   ["доставка"] "delivery" [] "Is there delivery?" 78
                   eq_refl eq_refl _ _ eq_refl)).
  - intros item' p' H. by apply elem_of_nil in H.
  - intros p' H. apply list_elem_of_singleton in H as ->. reflexivity.
Defined.

(** The utterance matches "доставка" of the second entry, but the scan first
    tries the pattern "(" of the first entry, and raises. *)
Lemma faq_answer_malformed_before_match :
  let u := "Яка у вас доставка?" in
  faq malformed_data !! 1%nat = Some {| q := "доставка|delivery"; a := "Доставка 1-2 дні" |} ∧
  demo_re_search (demo_strip "доставка") u = re_Match ∧
  Forall (λ p, demo_re_search (demo_strip p) u ≠ re_Match) (str_split "|" "(") ∧
  faq_answer demo_strip demo_re_search demo_ratio malformed_data u 78 = Raise re_error.
Proof.
  split_and!; try reflexivity. by repeat constructor.
Qed.

(** No rule matches; the token sets are equal, so the fuzzy phase answers. *)
Lemma faq_answer_fuzzy_phase_witness :
  faq_answer demo_strip demo_re_search demo_ratio demo_data
    "доставки вартість яка" 78 = Ok (Some "Від 50 грн") ∧
  faq_answer demo_strip demo_re_search demo_ratio demo_data
    "котра година" 78 = Ok None.
Proof.
  split.
  - destruct (faq_answer_fuzzy_phase demo_strip demo_re_search demo_ratio demo_data
                "доставки вартість яка" 78) as (n & best & Hn & Hmax & Hfirst & ->).
    + intros item p Hitem Hp. simpl in Hitem.
      repeat (apply elem_of_cons in Hitem as [->|Hitem]);
        [..|by apply elem_of_nil in Hitem];
        repeat (apply elem_of_cons in Hp as [->|Hp]);
        try reflexivity; by apply elem_of_nil in Hp.
    + destruct n as [|[|n]]; simpl in Hn; [| |done]; injection Hn as <-.
      * specialize (Hmax {| q := "яка вартість доставки"; a := "Від 50 грн" |}
                      ltac:(right; left)).
        by vm_compute in Hmax.
      * reflexivity.
  - destruct (faq_answer_fuzzy_phase demo_strip demo_re_search demo_ratio demo_data
                "котра година" 78) as (n & best & Hn & Hmax & Hfirst & ->).
    + intros item p Hitem Hp. simpl in Hitem.
      repeat (apply elem_of_cons in Hitem as [->|Hitem]);
        [..|by apply elem_of_nil in Hitem];
        repeat (apply elem_of_cons in Hp as [->|Hp]);
        try reflexivity; by apply elem_of_nil in Hp.
    + destruct n as [|[|n]]; simpl in Hn; [| |done]; injection Hn as <-;
        reflexivity.
Defined.

(** No sub-pattern matches the utterance, yet [faq_answer] neither scores it
    nor returns [None]: the first pattern does not compile. *)
Lemma faq_answer_malformed_no_match :
  let u := "котра година" in
  Forall (λ item, Forall (λ p, demo_re_search (demo_strip p) u ≠ re_Match)
                         (str_split "|" (q item)))
         (faq malformed_data) ∧
  faq_answer demo_strip demo_re_search demo_ratio malformed_data u 78 = Raise re_error.
Proof.
  split; [|reflexivity]. by repeat constructor.
Qed.

(** The first sub-pattern in scan order does not compile. *)
Lemma faq_answer_raises_iff_witness :
  ∃ pre p item post,
    scan_order demo_strip (faq malformed_data) = pre ++ (p, item) :: post ∧
    demo_re_search p "привіт" = re_raises ∧
    ∀ x, x ∈ pre → demo_re_search x.1 "привіт" = re_None.
Proof.
  apply (proj1 (proj1 (faq_answer_raises_iff demo_strip demo_re_search demo_ratio
                         malformed_data "привіт" 78))).
  reflexivity.
Defined.

(** The malformed pattern is not skipped: [faq_answer] raises. *)
Lemma faq_answer_malformed_raises :
  demo_re_search (demo_strip "(") "привіт" = re_raises ∧
  faq_answer demo_strip demo_re_search demo_ratio malformed_data "привіт" 78
    = Raise re_error.
Proof. by split. Qed.

(** A client whose call fails: the reply is the canned sentence. *)
Example gen_ai_reply_client_down :
  gen_ai_reply demo_lower demo_strip demo_json_dumps "gpt-4o-mini"
    "Ти помічник магазину Shop Cozy." demo_data
    (Some (λ _, Raise (ExternalError "timeout"))) "котра година" "uk" initial_world
  = (initial_world,
     [chat_completions_create
        {| req_model := "gpt-4o-mini";
           req_system := "Ти помічник магазину Shop Cozy." +:+ newline +:+ newline
                         +:+ "YAML:" +:+ newline +:+ "{}" +:+ newline +:+ newline
                         +:+ "Language to respond: uk";
           req_user := "котра година"; req_temperature := 4 # 10;
           req_max_tokens := 300 |};
      logger_warning (ExternalError "timeout")],
     Ok fallback_uk).
Proof. reflexivity. Qed.

(** The empty text and a tie give "uk"; two "ru" markers against none give
    "ru". *)
Lemma detect_lang_spec_witness :
  detect_lang demo_lower "" = "uk" ∧
  detect_lang demo_lower "Меню и доставка" = "uk" ∧
  detect_lang demo_lower "Сколько стоит? Какая ЦЕНА?" = "ru".
Proof.
  split_and!.
  - by apply (detect_lang_spec demo_lower "").
  - apply (proj2 (proj1 (proj2 (proj2 (detect_lang_spec demo_lower "Меню и доставка"))))).
    by vm_compute.
  - apply (proj2 (proj1 (proj2 (detect_lang_spec demo_lower
                                  "Сколько стоит? Какая ЦЕНА?")))).
    by vm_compute.
Defined.

(** After the first of two answers the session is at step 1, below the
    number of fields.  The second answer removes it when the row is written;
    on a read-only disk it leaves it at step 2, the number of fields, and a
    text sent to a session at step 2 raises [IndexError]. *)
Lemma session_step_invariant_witness :
  let w1 := demo_env run demo_data None demo_open
              [ev_lead (olena "/lead"); ev_text "2026-01-05T10:00:00" (olena "Олена")]
              initial_world in
  let answer := ev_text "2026-01-05T10:01:00" (olena "0501234567") in
  let w2 := {| LEAD_STATE := {[42 := {| step := 2; answers := ∅ |}]};
               LEADS_CSV := None |} in
  LEAD_STATE w1 !! 42 = Some {| step := 1; answers := {["full_name" := "Олена"]} |} ∧
  sessions_in_range demo_data w1 ∧
  (∀ user_id state, LEAD_STATE w1 !! user_id = Some state → 0 ≤ step state < 2) ∧
  LEAD_STATE (demo_env world_after demo_data None demo_open answer w1) !! 42 = None ∧
  LEAD_STATE (demo_env world_after demo_data None read_only_disk answer w1) !! 42
    = Some {| step := 2;
              answers := <["phone" := "0501234567"]> {["full_name" := "Олена"]} |} ∧
  demo_env handle demo_data None read_only_disk answer w2 = (w2, [], Raise IndexError).
Proof.
  intros w1 answer w2. split_and!.
  - reflexivity.
  - apply (proj1 (demo_env session_step_invariant demo_data None demo_open)).
    by eexists.
  - apply (proj2 (proj2 (proj2
             (demo_env session_step_invariant demo_data None demo_open)))
             ltac:(discriminate)
             [ev_lead (olena "/lead"); ev_text "2026-01-05T10:00:00" (olena "Олена")]).
    intros utcnow upd _. reflexivity.
  - pose proof (proj1 (proj2 (demo_env session_step_invariant demo_data None demo_open))
                  "2026-01-05T10:01:00" (olena "0501234567") w1 "0501234567"
                  {| step := 1; answers := {["full_name" := "Олена"]} |}
                  {| name := "phone"; label := "Ваш телефон?" |}
                  eq_refl ltac:(discriminate) eq_refl eq_refl) as H.
    exact (proj1 (proj2 H)).
  - pose proof (proj1 (proj2 (demo_env session_step_invariant demo_data None
                                read_only_disk))
                  "2026-01-05T10:01:00" (olena "0501234567") w1 "0501234567"
                  {| step := 1; answers := {["full_name" := "Олена"]} |}
                  {| name := "phone"; label := "Ваш телефон?" |}
                  eq_refl ltac:(discriminate) eq_refl eq_refl) as H.
    exact (proj1 (proj2 (proj2 H))).
  - apply (proj1 (proj2 (proj2
             (demo_env session_step_invariant demo_data None read_only_disk)))
             "2026-01-05T10:01:00" (olena "0501234567") w2 "0501234567"
             {| step := 2; answers := ∅ |} eq_refl ltac:(discriminate) eq_refl eq_refl).
Defined.

(** On a read-only disk the last answer of an interview raises [OSError]
    after [step] has been incremented and before the session is deleted: the
    session stays in the map with [step] 2, the number of fields, nothing is
    written, and the next text of the user does not remove it either. *)
Lemma session_kept_when_write_raises :
  let evs := [ev_lead (olena "/lead");
              ev_text "2026-01-05T10:00:00" (olena "Олена");
              ev_text "2026-01-05T10:01:00" (olena "0501234567")] in
  let again := ev_text "2026-01-05T10:02:00" (olena "0501234567") in
  let w' := demo_env run demo_data None read_only_disk evs initial_world in
  demo_env run_results demo_data None read_only_disk evs initial_world
    = [Ok tt; Ok tt; Raise OSError] ∧
  Z.of_nat (length (leads_fields demo_data)) = 2 ∧
  LEAD_STATE w' !! 42
    = Some {| step := 2;
              answers := <["phone" := "0501234567"]> {["full_name" := "Олена"]} |} ∧
  LEADS_CSV w' = None ∧
  demo_env handle demo_data None read_only_disk again w' = (w', [], Raise IndexError).
Proof. by split_and!. Qed.

(** Without lead fields the session that [lead] stores has [step] 0, the
    number of fields, from the start, and stays in the map. *)
Example session_at_len_without_fields :
  let w' := demo_env run no_fields_data None demo_open [ev_lead (olena "/lead")]
              initial_world in
  LEAD_STATE w' !! 42 = Some {| step := 0; answers := ∅ |} ∧
  Z.of_nat (length (leads_fields no_fields_data)) = 0.
Proof. by split. Qed.

(** An answer under "email" does not change what [save_lead] writes, and the
    file of a finished interview is well formed. *)
Lemma save_lead_six_columns_witness :
  save_lead demo_open "2026-01-05T10:00:00" 42 "olena"
            {["email" := "olena@example.com"]} initial_world
  = save_lead demo_open "2026-01-05T10:00:00" 42 "olena" ∅ initial_world ∧
  csv_well_formed
    (demo_env run demo_data None demo_open
       [ev_lead (olena "/lead"); ev_text "2026-01-05T10:00:00" (olena "Олена");
        ev_text "2026-01-05T10:01:00" (olena "0501234567")] initial_world).
Proof.
  destruct (demo_env save_lead_six_columns demo_data None demo_open
              "2026-01-05T10:00:00" 42 "olena" ∅ initial_world)
    as (_ & _ & _ & Hother & Hreach).
  split.
  - apply (Hother "email" "olena@example.com").
    intros H. repeat (apply elem_of_cons in H as [H|H]; [discriminate|]).
    by apply elem_of_nil in H.
  - apply Hreach. by eexists.
Defined.

(** Without lead fields both ways of starting the flow raise [IndexError]. *)
Lemma lead_requires_fields_witness :
  lead no_fields_data (olena "/lead") initial_world
    = (with_fresh_session 42 initial_world, [], Raise IndexError) ∧
  demo_env text_router no_fields_data None demo_open "2026-01-05T10:00:00"
    (olena "Залишити заявку") initial_world
    = (with_fresh_session 42 initial_world, [], Raise IndexError) ∧
  lead demo_data (olena "/lead") initial_world
    = (with_fresh_session 42 initial_world, [reply_text "Як вас звати?" None], Ok tt).
Proof.
  split_and!.
  - by apply (demo_env lead_requires_fields no_fields_data None demo_open
                (olena "/lead") initial_world).
  - destruct (demo_env lead_requires_fields no_fields_data None demo_open
                (olena "Залишити заявку") initial_world) as (Hnone & _ & Hquick).
    rewrite (Hquick "2026-01-05T10:00:00" "Залишити заявку");
      [by apply Hnone | done..].
  - by apply (proj1 (proj2 (demo_env lead_requires_fields demo_data None demo_open
                              (olena "/lead") initial_world))
                {| name := "full_name"; label := "Як вас звати?" |}
                [ {| name := "phone"; label := "Ваш телефон?" |} ]).
Defined.

(** The contact and hours phrases are answered from the company data, also
    with a FAQ pattern that does not compile. *)
Lemma quick_reply_contacts_hours_witness :
  demo_env text_router malformed_data None demo_open "2026-01-05T10:00:00"
    (olena " Контакти ") initial_world
  = (initial_world, [reply_text "Телефон: +380501234567" None], Ok tt) ∧
  demo_env text_router malformed_data None demo_open "2026-01-05T10:00:00"
    (olena "Часы работы") initial_world
  = (initial_world, [reply_text "9:00-18:00" None], Ok tt).
Proof.
  split.
  - apply (proj1 (demo_env quick_reply_contacts_hours malformed_data None demo_open
                    "2026-01-05T10:00:00" (olena " Контакти ") initial_world
                    " Контакти " eq_refl ltac:(discriminate) eq_refl)).
    by left.
  - apply (proj2 (demo_env quick_reply_contacts_hours malformed_data None demo_open
                    "2026-01-05T10:00:00" (olena "Часы работы") initial_world
                    "Часы работы" eq_refl ltac:(discriminate) eq_refl)).
    by right; left.
Defined.

Lemma not_a_quick_phrase_demo (x : string) :
  (if bool_decide (x ∈ ["залишити заявку"; "оставить заявку"; "контакти";
                        "контакты"; "години роботи"; "часы работы"])
   then False else True) →
  x ∉ ["залишити заявку"; "оставить заявку"; "контакти"; "контакты";
       "години роботи"; "часы работы"].
Proof. case_bool_decide; [done | by intros _]. Qed.

(** A question answered by the first FAQ rule, and one that no entry
    answers and that goes to the canned fallback (no AI client). *)
Lemma text_router_faq_then_ai_witness :
  demo_env text_router demo_data None demo_open "2026-01-05T10:00:00"
    (olena "Яка у вас доставка?") initial_world
  = (initial_world, [reply_text "Доставка 1-2 дні" None], Ok tt) ∧
  demo_env text_router demo_data None demo_open "2026-01-05T10:00:00"
    (olena "котра година") initial_world
  = (initial_world,
     [reply_text fallback_uk
        (Some (ReplyKeyboardMarkup
                 [["Меню"; "Доставка"]; ["Залишити заявку"];
                  ["Контакти"; "Години роботи"]] true))],
     Ok tt).
Proof.
  split.
  - apply (demo_env text_router_faq_then_ai demo_data None demo_open
             "2026-01-05T10:00:00" (olena "Яка у вас доставка?") initial_world
             "Яка у вас доставка?" eq_refl ltac:(discriminate) eq_refl).
    by apply not_a_quick_phrase_demo.
  - destruct (demo_env text_router_faq_then_ai demo_data None demo_open
                "2026-01-05T10:00:00" (olena "котра година") initial_world
                "котра година" eq_refl ltac:(discriminate) eq_refl)
      as (out & reply & Hgen & _ & ->).
    + by apply not_a_quick_phrase_demo.
    + by injection Hgen as <- <-.
Defined.

(** With "(" as the first FAQ pattern a greeting gets no reply at all. *)
Lemma text_router_malformed_pattern_witness :
  demo_env text_router malformed_data None demo_open "2026-01-05T10:00:00"
    (olena "привіт") initial_world
  = (initial_world, [], Raise re_error).
Proof.
  apply (demo_env text_router_malformed_pattern malformed_data None demo_open
           "2026-01-05T10:00:00" (olena "привіт") initial_world "привіт"
           [] "(" {| q := "("; a := "ніколи" |}
           [("доставка", {| q := "доставка|delivery"; a := "Доставка 1-2 дні" |});
            ("delivery", {| q := "доставка|delivery"; a := "Доставка 1-2 дні" |})]
           eq_refl ltac:(discriminate) eq_refl).
  - by apply not_a_quick_phrase_demo.
  - reflexivity.
  - reflexivity.
  - intros x Hx. by apply elem_of_nil in Hx.
Defined.

(** A start of the flow by one user leaves the session of the other. *)
Lemma handlers_touch_own_session_witness :
  let w := with_fresh_session 42 initial_world in
  LEAD_STATE (demo_env world_after demo_data None demo_open (ev_lead (taras "/lead")) w) !! 42
  = Some {| step := 0; answers := ∅ |}.
Proof.
  intros w.
  by rewrite (proj1 (demo_env handlers_touch_own_session demo_data None demo_open
                       (ev_lead (taras "/lead")) w) 42).
Defined.



(** After the first answer, the one key of the session is the first field. *)
Lemma session_answers_of_asked_fields_witness :
  ∃ i field, 0 ≤ Z.of_nat i < 1 ∧
    leads_fields demo_data !! i = Some field ∧ name field = "full_name".
Proof.
  apply (demo_env session_answers_of_asked_fields demo_data None demo_open
           (demo_env run demo_data None demo_open
              [ev_lead (olena "/lead");
               ev_text "2026-01-05T10:00:00" (olena "Олена")] initial_world)
           42 {| step := 1; answers := {["full_name" := "Олена"]} |}
           "full_name" "Олена").
  - by eexists.
  - reflexivity.
  - reflexivity.
Defined.

(** The fuzzy answer given at threshold 78 is given at threshold 50 too. *)
Lemma faq_answer_threshold_monotone_witness :
  faq_answer demo_strip demo_re_search demo_ratio demo_data
    "доставки вартість яка" 50 = Ok (Some "Від 50 грн").
Proof.
  apply (proj1 (faq_answer_threshold_monotone demo_strip demo_re_search demo_ratio
                  demo_data "доставки вартість яка" 78) 50 "Від 50 грн" ltac:(lia)).
  reflexivity.
Defined.

(** The answer to a delivery question is the answer of an entry; a knowledge
    base without entries answers nothing. *)
Lemma faq_answer_from_knowledge_base_witness :
  (∃ item, item ∈ faq demo_data ∧ a item = "Доставка 1-2 дні") ∧
  faq_answer demo_strip demo_re_search demo_ratio email_data "Яка у вас доставка?" 78
    = Ok None.
Proof.
  split.
  - apply (proj1 (faq_answer_from_knowledge_base demo_strip demo_re_search demo_ratio
                    demo_data "Яка у вас доставка?" 78)).
    reflexivity.
  - by apply (proj2 (faq_answer_from_knowledge_base demo_strip demo_re_search
                       demo_ratio email_data "Яка у вас доставка?" 78)).
Defined.

(** Shared markers alone give "uk"; "адреса" brings "адрес" with it. *)
Lemma detect_lang_distinct_markers_witness :
  detect_lang demo_lower "Меню, доставка, оплата" = "uk" ∧
  str_in "адрес" (demo_lower "Де ваша АДРЕСА?") = true.
Proof.
  split.
  - by apply (proj1 (proj2 (detect_lang_distinct_markers demo_lower
                              "Меню, доставка, оплата"))).
  - by apply (proj2 (proj2 (detect_lang_distinct_markers demo_lower
                              "Де ваша АДРЕСА?"))).
Defined.

(** With [BOT_LANG] "uk" a Russian text is still answered in Ukrainian. *)
Lemma router_lang_consistent_witness :
  done_msg (router_lang demo_lower "uk" "Сколько стоит? Какая цена?")
  = "Дякуємо! Заявку передано менеджеру. Ми на зв'язку 👌".
Proof.
  destruct (router_lang_consistent demo_lower demo_strip demo_json_dumps "uk"
              "gpt-4o-mini" "Ти помічник магазину Shop Cozy." demo_data None
              "Сколько стоит? Какая цена?") as [(_ & Hdone & _)|(Hru & _)].
  - exact Hdone.
  - discriminate Hru.
Defined.

(** With [BOT_LANG] "en" the greeting is Ukrainian and the help Russian. *)
Lemma start_help_fallback_language_witness :
  start "en" (olena "/start") initial_world
  = (initial_world,
     [reply_text "Привіт! Я AI‑помічник магазину Shop Cozy. Питайте що завгодно або тисніть кнопки нижче."
        (Some (ReplyKeyboardMarkup
                 [["Меню"; "Доставка"]; ["Залишити заявку"];
                  ["Контакти"; "Години роботи"]] true))],
     Ok tt) ∧
  help_cmd "en" (olena "/help") initial_world
  = (initial_world,
     [reply_text ("Команды:" +:+ newline +:+ "/start — старт" +:+ newline
                  +:+ "/help — помощь" +:+ newline
                  +:+ "/lead — оставить заявку" +:+ newline) None],
     Ok tt).
Proof.
  by apply (proj2 (proj2 (start_help_fallback_language "en" (olena "/start")
                            initial_world))).
Defined.

(** Two interviews, interleaved: both rows are written, each from its own
    user's texts, and neither user keeps a session. *)
Lemma lead_flow_interleaved_witness :
  let evs := [ev_text "2026-01-05T09:59:00" (taras "Контакти");
              ev_lead (olena "/lead");
              ev_lead (taras "/lead");
              ev_text "2026-01-05T10:00:00" (olena "Олена");
              ev_text "2026-01-05T10:00:30" (taras "Тарас");
              ev_text "2026-01-05T10:00:40" (taras "0671111111");
              ev_text "2026-01-05T10:01:00" (olena "0501234567");
              ev_start (taras "/start")] in
  let w' := demo_env run demo_data None demo_open evs initial_world in
  LEAD_STATE w' !! 42 = None ∧
  LEADS_CSV w' =
    Some [csv_header;
          [cell_str "2026-01-05T10:00:40"; cell_int 7; cell_str "";
           cell_str "Тарас"; cell_str "0671111111"; cell_str ""];
          [cell_str "2026-01-05T10:01:00"; cell_int 42; cell_str "olena";
           cell_str "Олена"; cell_str "0501234567"; cell_str ""]].
Proof.
  intros evs w'.
  destruct (demo_env lead_flow_interleaved demo_data None demo_open evs (olena "/lead")
              [("2026-01-05T10:00:00", olena "Олена");
               ("2026-01-05T10:01:00", olena "0501234567")] initial_world)
    as (utcnow & upd & _ & Hend).
  - done.
  - reflexivity.
  - repeat constructor; eexists; (split; [reflexivity | discriminate]).
  - reflexivity.
  - unfold demo_open in Hend. destruct Hend as (before & after & Hnone & _).
    split; [exact Hnone | reflexivity].
Defined.

(** Without lead fields, a start and two texts: three [IndexError]s. *)
Lemma empty_fields_lock_out_witness :
  demo_env run_results no_fields_data None demo_open
    [ev_lead (olena "/lead");
     ev_text "2026-01-05T10:00:00" (olena "Контакти");
     ev_text "2026-01-05T10:01:00" (olena "Яка у вас доставка?")] initial_world
  = [Raise IndexError; Raise IndexError; Raise IndexError].
Proof.
  destruct (demo_env empty_fields_lock_out no_fields_data None demo_open (olena "/lead")
              [("2026-01-05T10:00:00", olena "Контакти");
               ("2026-01-05T10:01:00", olena "Яка у вас доставка?")] initial_world)
    as [Hres _].
  - reflexivity.
  - repeat constructor; eexists; (split; [reflexivity | discriminate]).
  - simpl in Hres. reflexivity.
Defined.
